(** * Verification of the [logs.Level] codec of reginald-sdk-go

    The development embeds [src/logs/level.go] together with the parts of the
    Go standard library the file calls ([strconv.Atoi], [strconv.AppendQuote],
    [strconv.Unquote], [strings.IndexAny], [strings.ToUpper], the [%+d] verb
    of [fmt.Sprintf], [unicode/utf8]) and proves the properties the
    specification states about encoding, parsing and the marshal hooks.

    Conventions.
    - A Go [string] and a Go [[]byte] are both byte sequences: [string].
    - A Go [int] (and so a [Level]) is a [Z] kept inside the range of the
      platform's [int]; every arithmetic operation of the source is followed
      by its wrap-around ([wrapInt]).
    - A Go [error] result is an [option error], [None] being [nil].
    - A method with a pointer receiver, [func (l *Level) m(...) error], takes
      the value stored at [l] and returns the value stored there afterwards
      together with the error. *)

From Stdlib Require Import ZArith Lia Bool List Ascii String.
Import ListNotations.

Local Open Scope string_scope.
Local Open Scope Z_scope.

(** ** Bytes, slices and machine integers *)

(** [strconv.IntSize]: the size in bits of an [int] on the target. *)
Inductive IntSize : Set := Int32 | Int64.

Definition bitsOf (sz : IntSize) : Z :=
  match sz with Int32 => 32 | Int64 => 64 end.

Definition minInt (sz : IntSize) : Z := - 2 ^ (bitsOf sz - 1).
Definition maxInt (sz : IntSize) : Z := 2 ^ (bitsOf sz - 1) - 1.

(** The values an [int] can hold. *)
Definition isInt (sz : IntSize) (z : Z) : Prop := minInt sz <= z <= maxInt sz.

(** Two's complement wrap-around of a mathematical result into [int]. *)
Definition wrapInt (sz : IntSize) (z : Z) : Z :=
  (z + 2 ^ (bitsOf sz - 1)) mod 2 ^ bitsOf sz - 2 ^ (bitsOf sz - 1).

Definition maxUint64 : Z := 2 ^ 64 - 1.

(** Conversion to [uint64] and back to [int64]. *)
Definition toUint64 (z : Z) : Z := z mod 2 ^ 64.
Definition toInt64 (z : Z) : Z := (z + 2 ^ 63) mod 2 ^ 64 - 2 ^ 63.
(** Conversion to [int32] (a [rune]). *)
Definition toInt32 (z : Z) : Z := (z + 2 ^ 31) mod 2 ^ 32 - 2 ^ 31.

(** The numeric value of a byte and the byte of a value in [0, 255]. *)
Definition byteVal (c : ascii) : Z := Z.of_N (N_of_ascii c).
Definition byteOf (z : Z) : ascii := ascii_of_N (Z.to_N (z mod 256)).

(** [s[:n]] and [s[n:]] for [0 <= n <= len(s)]. *)
Fixpoint sliceTo (s : string) (n : nat) : string :=
  match n, s with
  | S k, String c r => String c (sliceTo r k)
  | _, _ => ""
  end.

Fixpoint sliceFrom (s : string) (n : nat) : string :=
  match n, s with
  | S k, String _ r => sliceFrom r k
  | _, _ => s
  end.

Definition len (s : string) : Z := Z.of_nat (String.length s).

(** ** Errors *)

(** The two sentinel errors a [*strconv.NumError] carries. *)
Inductive numErr : Set := ErrSyntax | ErrRange.

(** Go error values reachable from the package.  The three [fmt.Errorf]
    calls of [level.go] are kept apart by constructor, each recording the
    operands of its format and the error it wraps with [%w]. *)
Inductive error : Set :=
| NumError (Func Num : string) (Err : numErr)
    (* &strconv.NumError{Func, Num, Err} *)
| UnquoteSyntax
    (* strconv.ErrSyntax, as strconv.Unquote returns it *)
| ErrorfLevelString (s : string) (err : error)
    (* fmt.Errorf("logs: level string %q: %w", s, err) *)
| ErrorfUnknownName (name : string)
    (* fmt.Errorf("%w: %s", errUnknownName, name) *)
| ErrorfWrap (err : error).
    (* fmt.Errorf("%w", err) *)

(** The error kinds of the specification, as [errors.Is]/[errors.As] would
    classify an error of the package. *)
Definition isUnknownNameError (e : error) : bool :=
  match e with ErrorfUnknownName _ => true | _ => false end.

Definition isParseError (e : error) : bool :=
  match e with ErrorfLevelString _ (NumError _ _ _) => true | _ => false end.

Definition isFormatError (e : error) : bool :=
  match e with ErrorfWrap UnquoteSyntax => true | _ => false end.

(** ** Package [fmt]: the verbs of ["%s%+d"] *)

Module fmt.

(** [digits[d]] for the decimal digit [d]. *)
Definition digit (d : Z) : ascii := byteOf (48 + d).

(** The base 10 loop of [fmtInteger]: digits are written from the end of the
    buffer [intbuf], least significant first; [fuel] bounds the number of
    bytes the buffer can take. *)
Fixpoint fmtDecimal (fuel : nat) (u : Z) (buf : string) : string :=
  match fuel with
  | O => buf
  | S k =>
      if 10 <=? u then
        let next := u / 10 in
        fmtDecimal k next (String (digit (u - next * 10)) buf)
      else String (digit u) buf
  end.

(** [len(intbuf)]. *)
Definition intbufLen : nat := 68.

(** [fmtInteger(u, 10, signed, 'd', ldigits)] with the plus flag set and no
    width or precision, for the argument [v] converted to [uint64]. *)
Definition fmtIntegerPlus (v : Z) : string :=
  let u := toUint64 v in
  let negative := toInt64 u <? 0 in
  let u := if negative then toUint64 (- u) else u in
  let buf := fmtDecimal intbufLen u "" in
  if negative then String "-" buf else String "+" buf.

(** [fmt.Sprintf("%s%+d", base, val)]. *)
Definition Sprintf_s_plus_d (base : string) (val : Z) : string :=
  base ++ fmtIntegerPlus val.

End fmt.


(** ** Package [unicode/utf8] *)

Module utf8.

Definition RuneError : Z := 65533.   (* '�' *)
Definition RuneSelf : Z := 128.
Definition MaxRune : Z := 1114111.   (* '\U0010FFFF' *)
Definition surrogateMin : Z := 55296.   (* 0xD800 *)
Definition surrogateMax : Z := 57343.   (* 0xDFFF *)
Definition rune1Max : Z := 127.
Definition rune2Max : Z := 2047.
Definition rune3Max : Z := 65535.

Definition locb : Z := 128.   (* 0b10000000 *)
Definition hicb : Z := 191.   (* 0b10111111 *)

(** The entries of the table [first]: the size of the sequence a byte opens
    in the low bits, the index into [acceptRanges] in the high ones. *)
Definition xx : Z := 241.   (* 0xF1: invalid, size 1 *)
Definition as_ : Z := 240.  (* 0xF0: ASCII, size 1 *)
Definition s1 : Z := 2.     (* 0x02: accept 0, size 2 *)
Definition s2 : Z := 19.    (* 0x13: accept 1, size 3 *)
Definition s3 : Z := 3.     (* 0x03: accept 0, size 3 *)
Definition s4 : Z := 35.    (* 0x23: accept 2, size 3 *)
Definition s5 : Z := 52.    (* 0x34: accept 3, size 4 *)
Definition s6 : Z := 4.     (* 0x04: accept 0, size 4 *)
Definition s7 : Z := 68.    (* 0x44: accept 4, size 4 *)

(** [first[b]]. *)
Definition first (b : Z) : Z :=
  if b <? 128 then as_          (* 0x00-0x7F *)
  else if b <? 194 then xx      (* 0x80-0xC1 *)
  else if b <? 224 then s1      (* 0xC2-0xDF *)
  else if b =? 224 then s2      (* 0xE0 *)
  else if b <? 237 then s3      (* 0xE1-0xEC *)
  else if b =? 237 then s4      (* 0xED *)
  else if b <? 240 then s3      (* 0xEE-0xEF *)
  else if b =? 240 then s5      (* 0xF0 *)
  else if b <? 244 then s6      (* 0xF1-0xF3 *)
  else if b =? 244 then s7      (* 0xF4 *)
  else xx.                      (* 0xF5-0xFF *)

(** [acceptRanges[i]] as the pair [(lo, hi)]. *)
Definition acceptRanges (i : Z) : Z * Z :=
  if i =? 0 then (locb, hicb)
  else if i =? 1 then (160, hicb)
  else if i =? 2 then (locb, 159)
  else if i =? 3 then (144, hicb)
  else if i =? 4 then (locb, 143)
  else (0, 0).

(** A byte outside [lo, hi]. *)
Definition outside (c : ascii) (lo hi : Z) : bool :=
  (byteVal c <? lo) || (hi <? byteVal c).

(** [utf8.DecodeRuneInString(s)]: the rune and its width in bytes. *)
Definition DecodeRuneInString (s : string) : Z * Z :=
  match s with
  | "" => (RuneError, 0)
  | String c0 r0 =>
      let x := first (byteVal c0) in
      if as_ <=? x then
        (* the mask of the source selects the byte for [as] and RuneError for [xx] *)
        (if x =? as_ then byteVal c0 else RuneError, 1)
      else
        let size := Z.land x 7 in
        let '(lo, hi) := acceptRanges (Z.shiftr x 4) in
        if len s <? size then (RuneError, 1)
        else
          match r0 with
          | "" => (RuneError, 1)
          | String c1 r1 =>
              if outside c1 lo hi then (RuneError, 1)
              else if size <=? 2 then
                (Z.lor (Z.shiftl (Z.land (byteVal c0) 31) 6) (Z.land (byteVal c1) 63), 2)
              else
                match r1 with
                | "" => (RuneError, 1)
                | String c2 r2 =>
                    if outside c2 locb hicb then (RuneError, 1)
                    else if size <=? 3 then
                      (Z.lor (Z.lor (Z.shiftl (Z.land (byteVal c0) 15) 12)
                                    (Z.shiftl (Z.land (byteVal c1) 63) 6))
                             (Z.land (byteVal c2) 63), 3)
                    else
                      match r2 with
                      | "" => (RuneError, 1)
                      | String c3 _ =>
                          if outside c3 locb hicb then (RuneError, 1)
                          else
                            (Z.lor (Z.lor (Z.lor (Z.shiftl (Z.land (byteVal c0) 7) 18)
                                                 (Z.shiftl (Z.land (byteVal c1) 63) 12))
                                          (Z.shiftl (Z.land (byteVal c2) 63) 6))
                                   (Z.land (byteVal c3) 63), 4)
                      end
                end
          end
  end.

(** [utf8.ValidString(s)].  (The source first skips blocks of eight ASCII
    bytes, which the byte loop below accepts one at a time.) *)
Fixpoint ValidString (s : string) : bool :=
  match s with
  | "" => true
  | String c0 r0 =>
      let si := byteVal c0 in
      if si <? RuneSelf then ValidString r0
      else
        let x := first si in
        if x =? xx then false
        else
          let size := Z.land x 7 in
          if len s <? size then false
          else
            let '(lo, hi) := acceptRanges (Z.shiftr x 4) in
            match r0 with
            | "" => false
            | String c1 r1 =>
                if outside c1 lo hi then false
                else if size =? 2 then ValidString r1
                else
                  match r1 with
                  | "" => false
                  | String c2 r2 =>
                      if outside c2 locb hicb then false
                      else if size =? 3 then ValidString r2
                      else
                        match r2 with
                        | "" => false
                        | String c3 r3 =>
                            if outside c3 locb hicb then false
                            else ValidString r3
                        end
                  end
            end
  end.

(** [utf8.ValidRune(r)]. *)
Definition ValidRune (r : Z) : bool :=
  ((0 <=? r) && (r <? surrogateMin)) || ((surrogateMax <? r) && (r <=? MaxRune)).

(** The bytes [utf8.AppendRune(p, r)] appends to [p]. *)
Definition AppendRune (r : Z) : string :=
  let i := r mod 2 ^ 32 in   (* uint32(r) *)
  let three (r : Z) :=
    String (byteOf (Z.lor 224 (Z.shiftr r 12)))
      (String (byteOf (Z.lor 128 (Z.land (Z.shiftr r 6) 63)))
         (String (byteOf (Z.lor 128 (Z.land r 63))) "")) in
  if i <=? rune1Max then String (byteOf r) ""
  else if i <=? rune2Max then
    String (byteOf (Z.lor 192 (Z.shiftr r 6)))
      (String (byteOf (Z.lor 128 (Z.land r 63))) "")
  else if (MaxRune <? i) || ((surrogateMin <=? i) && (i <=? surrogateMax)) then
    three RuneError
  else if i <=? rune3Max then three r
  else
    String (byteOf (Z.lor 240 (Z.shiftr r 18)))
      (String (byteOf (Z.lor 128 (Z.land (Z.shiftr r 12) 63)))
         (String (byteOf (Z.lor 128 (Z.land (Z.shiftr r 6) 63)))
            (String (byteOf (Z.lor 128 (Z.land r 63))) ""))).

End utf8.

(** ** Package [strconv]: [Atoi], [AppendQuote] and [Unquote] *)

Module strconv.

Definition syntaxError (fn str : string) : error := NumError fn str ErrSyntax.
Definition rangeError (fn str : string) : error := NumError fn str ErrRange.

(** [lower(c)]: [c | ('x' - 'X')]. *)
Definition lower (c : Z) : Z := Z.lor c 32.

Section WithIntSize.
Variable sz : IntSize.

(** The digit loop of [ParseUint(s, 10, 0)]; [s0] is the whole argument and
    [n] the value accumulated so far.  With base 10, underscores are not
    accepted. *)
Fixpoint parseUintLoop (s0 : string) (s : string) (n : Z) : Z * option error :=
  match s with
  | "" => (n, None)
  | String ch rest =>
      let c := byteVal ch in
      let cutoff := maxUint64 / 10 + 1 in
      let maxVal := 2 ^ bitsOf sz - 1 in
      let digit :=
        if (48 <=? c) && (c <=? 57) then Some (c - 48)
        else if (97 <=? lower c) && (lower c <=? 122) then Some (lower c - 97 + 10)
        else None in
      match digit with
      | None => (0, Some (syntaxError "ParseUint" s0))
      | Some d =>
          if 10 <=? d then (0, Some (syntaxError "ParseUint" s0))
          else if cutoff <=? n then (maxVal, Some (rangeError "ParseUint" s0))
          else
            let n := toUint64 (n * 10) in
            let n1 := toUint64 (n + d) in
            if (n1 <? n) || (maxVal <? n1)
            then (maxVal, Some (rangeError "ParseUint" s0))
            else parseUintLoop s0 rest n1
      end
  end.

(** [ParseUint(s, 10, 0)]. *)
Definition ParseUint10 (s : string) : Z * option error :=
  if (s =? "")%string then (0, Some (syntaxError "ParseUint" s))
  else parseUintLoop s s 0.

(** [ParseInt(s, 10, 0)]. *)
Definition ParseInt10 (s : string) : Z * option error :=
  match s with
  | "" => (0, Some (syntaxError "ParseInt" s))
  | String c0 rest =>
      let s0 := s in
      let neg := (c0 =? "-")%char in
      let s := if ((c0 =? "+") || (c0 =? "-"))%char then rest else s in
      let '(un, err) := ParseUint10 s in
      match err with
      | Some (NumError _ _ ErrSyntax) => (0, Some (NumError "ParseInt" s0 ErrSyntax))
      | _ =>
          let cutoff := 2 ^ (bitsOf sz - 1) in
          if negb neg && (cutoff <=? un) then (cutoff - 1, Some (rangeError "ParseInt" s0))
          else if neg && (cutoff <? un) then (- cutoff, Some (rangeError "ParseInt" s0))
          else (if neg then toInt64 (- toInt64 un) else toInt64 un, None)
      end
  end.

(** The digit loop of the fast path of [Atoi]. *)
Fixpoint atoiFastLoop (s0 : string) (s : string) (n : Z) : Z * option error :=
  match s with
  | "" => (n, None)
  | String c rest =>
      let ch := (byteVal c - 48) mod 256 in
      if 9 <? ch then (0, Some (syntaxError "Atoi" s0))
      else atoiFastLoop s0 rest (wrapInt sz (n * 10 + ch))
  end.

(** [strconv.Atoi]. *)
Definition Atoi (s : string) : Z * option error :=
  let sLen := len s in
  if (0 <? sLen) && (sLen <? (match sz with Int32 => 10 | Int64 => 19 end)) then
    (* fast path for small integers that fit the int type *)
    let s0 := s in
    match s with
    | "" => (0, None) (* excluded by 0 < sLen *)
    | String c0 rest =>
        let s := if ((c0 =? "-") || (c0 =? "+"))%char then rest else s in
        if ((c0 =? "-") || (c0 =? "+"))%char && (len s <? 1)
        then (0, Some (syntaxError "Atoi" s0))
        else
          match atoiFastLoop s0 s 0 with
          | (n, None) => (if (c0 =? "-")%char then wrapInt sz (- n) else n, None)
          | r => r
          end
    end
  else
    (* slow path for invalid, big, or underscored integers *)
    match ParseInt10 s with
    | (i64, Some (NumError _ num e)) => (wrapInt sz i64, Some (NumError "Atoi" num e))
    | (i64, err) => (wrapInt sz i64, err)
    end.

End WithIntSize.

(** *** Quoting: [quote.go] *)

(** The double quote, the single quote, the back quote and the backslash. *)
Definition dquote : ascii := Eval compute in ascii_of_nat 34.
Definition squote : ascii := Eval compute in ascii_of_nat 39.
Definition bquote : ascii := Eval compute in ascii_of_nat 96.
Definition bslash : ascii := Eval compute in ascii_of_nat 92.

(** [lowerhex[n]] for [0 <= n < 16]. *)
Definition lowerhex (n : Z) : ascii :=
  if n <? 10 then byteOf (48 + n) else byteOf (97 + n - 10).

(** The escape [\c] for the letter [c]. *)
Definition esc (c : ascii) : string := String bslash (String c "").

(** [index(s, c)]: the index of the first byte [c] of [s], or -1. *)
Fixpoint index (s : string) (c : ascii) : Z :=
  match s with
  | "" => -1
  | String d r =>
      if (d =? c)%char then 0
      else let i := index r c in if i <? 0 then -1 else i + 1
  end.

(** [contains(s, c)]. *)
Definition contains (s : string) (c : ascii) : bool := negb (index s c =? -1).

Section WithPrintTables.
(** [IsPrint] above Latin-1 reads the Unicode tables [isPrint16],
    [isNotPrint16], [isPrint32] and [isNotPrint32] of the standard library:
    taken as a parameter. *)
Variable isPrintTables : Z -> bool.

(** [strconv.IsPrint(r)]. *)
Definition IsPrint (r : Z) : bool :=
  if r <=? 255 then
    if (32 <=? r) && (r <=? 126) then true
    else if (161 <=? r) && (r <=? 255) then negb (r =? 173)
    else false
  else isPrintTables r.

(** The digits [lowerhex[r>>s&0xF]] for [s] from [4*(n-1)] down to 0. *)
Fixpoint hexDigits (n : nat) (r : Z) : string :=
  match n with
  | O => ""
  | S k => String (lowerhex (Z.land (Z.shiftr r (4 * Z.of_nat k)) 15)) (hexDigits k r)
  end.

(** The bytes [appendEscapedRune(buf, r, quote, false, false)] appends. *)
Definition appendEscapedRune (r : Z) (quote : ascii) : string :=
  if (r =? byteVal quote) || (r =? 92) then String bslash (String (byteOf r) "")
  else if IsPrint r then utf8.AppendRune r
  else if r =? 7 then esc "a"
  else if r =? 8 then esc "b"
  else if r =? 12 then esc "f"
  else if r =? 10 then esc "n"
  else if r =? 13 then esc "r"
  else if r =? 9 then esc "t"
  else if r =? 11 then esc "v"
  else if (r <? 32) || (r =? 127) then
    esc "x" ++ String (lowerhex (Z.shiftr (r mod 256) 4))
                 (String (lowerhex (Z.land (r mod 256) 15)) "")
  else if negb (utf8.ValidRune r) then esc "u" ++ hexDigits 4 65533
  else if r <? 65536 then esc "u" ++ hexDigits 4 r
  else esc "U" ++ hexDigits 8 r.

(** The loop of [appendQuotedWith(buf, s, quote, false, false)]: the bytes
    appended between the two quotes.  Every round consumes [width >= 1]
    bytes of [s], so [fuel = len(s)] rounds are enough. *)
Fixpoint appendQuotedLoop (fuel : nat) (s : string) (quote : ascii) : string :=
  match fuel, s with
  | S k, String c0 _ =>
      let '(r, width) :=
        if utf8.RuneSelf <=? byteVal c0 then utf8.DecodeRuneInString s
        else (byteVal c0, 1) in
      let out :=
        if (width =? 1) && (r =? utf8.RuneError) then
          esc "x" ++ String (lowerhex (Z.shiftr (byteVal c0) 4))
                       (String (lowerhex (Z.land (byteVal c0) 15)) "")
        else appendEscapedRune r quote in
      out ++ appendQuotedLoop k (sliceFrom s (Z.to_nat width)) quote
  | _, _ => ""
  end.

(** [strconv.AppendQuote(buf, s)]. *)
Definition AppendQuote (buf s : string) : string :=
  buf ++ String dquote (appendQuotedLoop (String.length s) s dquote)
      ++ String dquote "".

End WithPrintTables.

(** [unhex(b)]. *)
Definition unhex (b : Z) : option Z :=
  if (48 <=? b) && (b <=? 57) then Some (b - 48)
  else if (97 <=? b) && (b <=? 102) then Some (b - 97 + 10)
  else if (65 <=? b) && (b <=? 70) then Some (b - 65 + 10)
  else None.

(** The loop [v = v<<4 | x] of [UnquoteChar] over the first [n] bytes of [s]. *)
Fixpoint unhexLoop (n : nat) (s : string) (v : Z) : option Z :=
  match n with
  | O => Some v
  | S k =>
      match s with
      | "" => None
      | String c r =>
          match unhex (byteVal c) with
          | None => None
          | Some x => unhexLoop k r (Z.lor (toInt32 (Z.shiftl v 4)) x)
          end
      end
  end.

(** [strconv.UnquoteChar(s, quote)]: [None] is [ErrSyntax], otherwise the
    value, whether it is multibyte, and the tail. *)
Definition UnquoteChar (s : string) (quote : ascii) : option (Z * bool * string) :=
  match s with
  | "" => None
  | String c0 r0 =>
      let c := byteVal c0 in
      if (c0 =? quote)%char && ((quote =? squote) || (quote =? dquote))%char then None
      else if utf8.RuneSelf <=? c then
        let '(r, size) := utf8.DecodeRuneInString s in
        Some (r, true, sliceFrom s (Z.to_nat size))
      else if negb (c0 =? bslash)%char then Some (c, false, r0)
      else
        (* hard case: c is backslash *)
        match r0 with
        | "" => None
        | String c1 s =>
            let c := byteVal c1 in
            if c =? 97 then Some (7, false, s)          (* 'a' *)
            else if c =? 98 then Some (8, false, s)     (* 'b' *)
            else if c =? 102 then Some (12, false, s)   (* 'f' *)
            else if c =? 110 then Some (10, false, s)   (* 'n' *)
            else if c =? 114 then Some (13, false, s)   (* 'r' *)
            else if c =? 116 then Some (9, false, s)    (* 't' *)
            else if c =? 118 then Some (11, false, s)   (* 'v' *)
            else if (c =? 120) || (c =? 117) || (c =? 85) then   (* 'x', 'u', 'U' *)
              let n := if c =? 120 then 2%nat else if c =? 117 then 4%nat else 8%nat in
              if len s <? Z.of_nat n then None
              else
                match unhexLoop n s 0 with
                | None => None
                | Some v =>
                    let s := sliceFrom s n in
                    if c =? 120 then Some (v, false, s)
                    else if negb (utf8.ValidRune v) then None
                    else Some (v, true, s)
                end
            else if (48 <=? c) && (c <=? 55) then   (* '0' ... '7' *)
              let v := c - 48 in
              match s with
              | String d1 (String d2 s) =>
                  let x1 := byteVal d1 - 48 in
                  let x2 := byteVal d2 - 48 in
                  if (x1 <? 0) || (7 <? x1) then None
                  else if (x2 <? 0) || (7 <? x2) then None
                  else
                    let v := Z.lor (Z.shiftl (Z.lor (Z.shiftl v 3) x1) 3) x2 in
                    if 255 <? v then None else Some (v, false, s)
              | _ => None   (* len(s) < 2 *)
              end
            else if c =? 92 then Some (92, false, s)   (* a backslash *)
            else if (c =? 39) || (c =? 34) then        (* a single or a double quote *)
              if negb (c1 =? quote)%char then None else Some (c, false, s)
            else None
        end
  end.

(** The loop of [unquote] over a string with escape sequences: [None] is
    the return with [ErrSyntax], otherwise the buffer and what is left of the
    input when the loop ends.  Every round consumes at least one byte, so
    [fuel = len(in)] rounds are enough. *)
Fixpoint unquoteLoop (fuel : nat) (quote : ascii) (inp buf : string)
  : option (string * string) :=
  match inp with
  | "" => Some (buf, inp)
  | String c _ =>
      if (c =? quote)%char then Some (buf, inp)
      else
        match fuel with
        | O => None
        | S k =>
            match UnquoteChar inp quote with
            | None => None
            | Some (r, multibyte, rem) =>
                if byteVal c =? 10 then None
                else
                  let buf :=
                    buf ++ (if (r <? utf8.RuneSelf) || negb multibyte
                            then String (byteOf r) ""
                            else utf8.AppendRune r) in
                  if (quote =? squote)%char then Some (buf, rem)
                  else unquoteLoop k quote rem buf
            end
        end
  end.

(** The raw string without its carriage returns. *)
Fixpoint dropCR (s : string) : string :=
  match s with
  | "" => ""
  | String c r => if byteVal c =? 13 then dropCR r else String c (dropCR r)
  end.

(** [unquote(in, true)]: the unquoted prefix, the remainder and the error. *)
Definition unquote (inp : string) : string * string * option error :=
  match inp with
  | String quote (String _ _ as rest) =>
      let end_ := index rest quote in
      if end_ <? 0 then ("", inp, Some UnquoteSyntax)
      else
        let end_ := Z.to_nat (end_ + 2) in
        (* in[1:end-1] *)
        let body := sliceFrom (sliceTo inp (end_ - 1)) 1 in
        if (quote =? bquote)%char then
          let out :=
            if negb (contains (sliceTo inp end_) (byteOf 13)) then body
            else dropCR body in
          (out, sliceFrom inp end_, None)
        else if ((quote =? dquote) || (quote =? squote))%char then
          let valid :=
            if negb (contains (sliceTo inp end_) bslash)
               && negb (contains (sliceTo inp end_) (byteOf 10)) then
              if (quote =? dquote)%char then utf8.ValidString body
              else
                let '(r, n) := utf8.DecodeRuneInString body in
                (1 + n + 1 =? Z.of_nat end_)
                && (negb (r =? utf8.RuneError) || negb (n =? 1))
            else false in
          if valid then (body, sliceFrom inp end_, None)
          else
            (* quoted strings with escape sequences *)
            match unquoteLoop (String.length rest) quote rest "" with
            | Some (buf, String c rem) =>
                if (c =? quote)%char then (buf, rem, None)
                else ("", inp, Some UnquoteSyntax)
            | _ => ("", inp, Some UnquoteSyntax)
            end
        else ("", inp, Some UnquoteSyntax)
  | _ => ("", inp, Some UnquoteSyntax)   (* len(in) < 2 *)
  end.

(** [strconv.Unquote(s)]. *)
Definition Unquote (s : string) : string * option error :=
  let '(out, rem, err) := unquote s in
  if 0 <? len rem then ("", Some UnquoteSyntax) else (out, err).

End strconv.

(** ** Package [strings] *)

Module strings.

(** Whether the byte [c] occurs in [chars]. *)
Fixpoint containsByte (chars : string) (c : ascii) : bool :=
  match chars with
  | "" => false
  | String d r => (c =? d)%char || containsByte r c
  end.

(** [strings.IndexAny(s, chars)] for a set [chars] of ASCII characters: the
    index of the first byte of [s] that is in [chars], or -1. *)
Fixpoint IndexAny (s chars : string) : Z :=
  match s with
  | "" => -1
  | String c r =>
      if containsByte chars c then 0
      else let i := IndexAny r chars in if i <? 0 then -1 else i + 1
  end.

(** The scan that opens [strings.ToUpper]: whether [s] is ASCII only, and
    whether it has a lower-case ASCII letter. *)
Fixpoint isASCII (s : string) : bool :=
  match s with
  | "" => true
  | String c r => (byteVal c <? 128) && isASCII r
  end.

Fixpoint hasLower (s : string) : bool :=
  match s with
  | "" => false
  | String c r => ((97 <=? byteVal c) && (byteVal c <=? 122)) || hasLower r
  end.

(** The ASCII branch of [strings.ToUpper]: [c -= 'a' - 'A'] for each
    lower-case letter, the other bytes copied. *)
Fixpoint upperASCII (s : string) : string :=
  match s with
  | "" => ""
  | String c r =>
      let v := byteVal c in
      String (if (97 <=? v) && (v <=? 122) then byteOf (v - 32) else c) (upperASCII r)
  end.

Section WithUnicode.
(** [strings.Map(unicode.ToUpper, s)], which depends on the Unicode case
    tables of the standard library: taken as a parameter. *)
Variable mapUnicodeToUpper : string -> string.

(** [strings.ToUpper]. *)
Definition ToUpper (s : string) : string :=
  if isASCII s then
    if negb (hasLower s) then s else upperASCII s
  else mapUnicodeToUpper s.

End WithUnicode.

End strings.

(** ** Package [log/slog]: the level constants *)

Module slog.
Definition LevelDebug : Z := -4.
Definition LevelInfo : Z := 0.
Definition LevelWarn : Z := 4.
Definition LevelError : Z := 8.
End slog.

(** ** Package [logs]: [level.go] *)

Module logs.

(** [type Level slog.Level], an [int]. *)
Definition Level : Set := Z.

(** Names for common levels. *)
Definition LevelTrace : Level := -8.
Definition LevelDebug : Level := slog.LevelDebug.
Definition LevelInfo : Level := slog.LevelInfo.
Definition LevelWarn : Level := slog.LevelWarn.
Definition LevelError : Level := slog.LevelError.

Section WithTarget.
(** The size of [int] on the target. *)
Variable sz : IntSize.
(** [strings.Map(unicode.ToUpper, s)], see [strings.ToUpper]. *)
Variable mapUnicodeToUpper : string -> string.
(** The Unicode tables of [strconv.IsPrint]. *)
Variable isPrintTables : Z -> bool.

(** The closure [str] of [Level.String]. *)
Definition str (base : string) (val : Level) : string :=
  if val =? 0 then base
  else fmt.Sprintf_s_plus_d base val.

(** [func (l Level) String() string]. *)
Definition String (l : Level) : string :=
  if l <? LevelDebug then str "TRACE" (wrapInt sz (l - LevelTrace))
  else if l <? LevelInfo then str "DEBUG" (wrapInt sz (l - LevelDebug))
  else if l <? LevelWarn then str "INFO" (wrapInt sz (l - LevelInfo))
  else if l <? LevelError then str "WARN" (wrapInt sz (l - LevelWarn))
  else str "ERROR" (wrapInt sz (l - LevelError)).

(** [func (l Level) MarshalJSON() ([]byte, error)]. *)
Definition MarshalJSON (l : Level) : string * option error :=
  (strconv.AppendQuote isPrintTables "" (String l), None).

(** [func (l Level) AppendText(b []byte) ([]byte, error)]. *)
Definition AppendText (l : Level) (b : string) : string * option error :=
  (b ++ String l, None).

(** [func (l Level) MarshalText() ([]byte, error)]. *)
Definition MarshalText (l : Level) : string * option error :=
  AppendText l "".

(** [func (l *Level) parse(s string) error]: [l] is the value the receiver
    points to on entry, the result the value it points to on return and the
    error. *)
Definition parse (l : Level) (s : string) : Level * option error :=
  let name := s in
  let offset := 0 in
  let i := strings.IndexAny s "+-" in
  let split :=
    if 0 <=? i then
      let name := sliceTo s (Z.to_nat i) in
      match strconv.Atoi sz (sliceFrom s (Z.to_nat i)) with
      | (_, Some err) => inr (ErrorfLevelString s err)
      | (offset, None) => inl (name, offset)
      end
    else inl (name, offset) in
  match split with
  | inr e => (l, Some e)
  | inl (name, offset) =>
      let up := strings.ToUpper mapUnicodeToUpper name in
      let assigned :=
        if (up =? "TRACE")%string then Some LevelTrace
        else if (up =? "DEBUG")%string then Some LevelDebug
        else if (up =? "INFO")%string then Some LevelInfo
        else if (up =? "WARN")%string then Some LevelWarn
        else if (up =? "ERROR")%string then Some LevelError
        else None in
      match assigned with
      | None => (l, Some (ErrorfUnknownName name))
      | Some l => (wrapInt sz (l + offset), None)
      end
  end.

(** [func (l *Level) UnmarshalJSON(data []byte) error]. *)
Definition UnmarshalJSON (l : Level) (data : string) : Level * option error :=
  match strconv.Unquote data with
  | (_, Some err) => (l, Some (ErrorfWrap err))
  | (s, None) => parse l s
  end.

(** [func (l *Level) UnmarshalText(data []byte) error]. *)
Definition UnmarshalText (l : Level) (data : string) : Level * option error :=
  parse l data.

End WithTarget.
End logs.


(** * The vocabulary of the specification

    Definitions that follow the words of the specification, to state what
    the code above is compared with. *)

Module Spec.

(** Every byte of [s] satisfies [p]. *)
Fixpoint allBytes (p : ascii -> bool) (s : string) : bool :=
  match s with
  | "" => true
  | String c r => p c && allBytes p r
  end.

(** A decimal digit, and a sign. *)
Definition isDigit (c : ascii) : bool := (48 <=? byteVal c) && (byteVal c <=? 57).
Definition isSign (c : ascii) : bool := ((c =? "+") || (c =? "-"))%char.

(** The number a string of decimal digits denotes, most significant digit
    first, continuing from [n]. *)
Fixpoint digitsVal (s : string) (n : Z) : Z :=
  match s with
  | "" => n
  | String c r => digitsVal r (n * 10 + (byteVal c - 48))
  end.

(** [d] is the decimal magnitude of [n]: one or more decimal digits that
    denote [n], with no leading zero. *)
Definition decimalOf (n : Z) (d : string) : Prop :=
  allBytes isDigit d = true /\ digitsVal d 0 = n /\
  match d with
  | "" => False
  | String c r => c = "0"%char -> r = ""
  end.

(** A signed decimal integer that fits the target's [int]: a sign, then one
    or more decimal digits.  [None] is malformed or out of range text. *)
Definition signedDecimal (sz : IntSize) (s : string) : option Z :=
  match s with
  | String c (String _ _ as d) =>
      if isSign c && allBytes isDigit d then
        let v := if (c =? "-")%char then - digitsVal d 0 else digitsVal d 0 in
        if (minInt sz <=? v) && (v <=? maxInt sz) then Some v else None
      else None
  | _ => None
  end.

(** The table of anchors, in ascending order. *)
Definition anchors : list (string * Z) :=
  [("TRACE", -8); ("DEBUG", -4); ("INFO", 0); ("WARN", 4); ("ERROR", 8)].

(** [na] is the anchor whose band contains [l]: the greatest anchor not
    above [l], values below DEBUG's anchor selecting TRACE. *)
Definition bandAnchor (l : Z) (na : string * Z) : Prop :=
  In na anchors /\
  ((snd na <= l /\ forall nb, In nb anchors -> snd nb <= l -> snd nb <= snd na)
   \/ (l < -4 /\ na = ("TRACE", -8))).

(** [out] is the canonical form for the anchor [name] and [offset]: the name
    alone for a zero offset, otherwise the name, an explicit sign and the
    decimal magnitude. *)
Definition canonical (name : string) (offset : Z) (out : string) : Prop :=
  if offset =? 0 then out = name
  else exists d, decimalOf (Z.abs offset) d /\
                 out = name ++ String (if 0 <? offset then "+"%char else "-"%char) d.

(** [s] split at the first ['+'] or ['-']: [name] is what precedes it and
    [off] the rest, sign included; [off] is empty when [s] has no sign. *)
Definition splitAtSign (s name off : string) : Prop :=
  s = name ++ off /\
  allBytes (fun c => negb (isSign c)) name = true /\
  match off with "" => True | String c _ => isSign c = true end.

(** The upper-case form of an ASCII byte. *)
Definition upperByte (c : ascii) : ascii :=
  if (97 <=? byteVal c) && (byteVal c <=? 122) then byteOf (byteVal c - 32) else c.

(** Equality of two strings up to the case of their ASCII letters. *)
Fixpoint equalFold (a b : string) : bool :=
  match a, b with
  | "", "" => true
  | String x a', String y b' => (upperByte x =? upperByte y)%char && equalFold a' b'
  | _, _ => false
  end.

Section WithUnicode.
(** [strings.Map(unicode.ToUpper, s)], see [strings.ToUpper]. *)
Variable mapUnicodeToUpper : string -> string.

(** The name segment [name] matches the anchor name [anchor] without regard
    to case: letter by letter for an ASCII segment, through the Unicode
    upper-case mapping otherwise. *)
Definition nameMatches (name anchor : string) : bool :=
  if strings.isASCII name then equalFold name anchor
  else (mapUnicodeToUpper name =? anchor)%string.

(** The value of the anchor the name segment matches, if any. *)
Definition lookupAnchor (name : string) : option Z :=
  option_map snd (find (fun na => nameMatches name (fst na)) anchors).

End WithUnicode.


(** A byte that stands for itself between double quotes: printable ASCII
    other than the double quote and the backslash. *)
Definition isPlainByte (c : ascii) : bool :=
  (32 <=? byteVal c) && (byteVal c <=? 126)
  && negb (byteVal c =? 34) && negb (byteVal c =? 92).

(** [s] between double quotes. *)
Definition quoted (s : string) : string :=
  String strconv.dquote (s ++ String strconv.dquote "").

(** The name segment of [s]: what precedes its first sign. *)
Fixpoint nameSegment (s : string) : string :=
  match s with
  | "" => ""
  | String c r => if isSign c then "" else String c (nameSegment r)
  end.

(** The offset segment of [s]: [s] from its first sign on, empty when it has
    no sign. *)
Fixpoint offsetSegment (s : string) : string :=
  match s with
  | "" => ""
  | String c r => if isSign c then s else offsetSegment r
  end.

(** An ASCII letter. *)
Definition isLetter (c : ascii) : bool :=
  ((65 <=? byteVal c) && (byteVal c <=? 90))
  || ((97 <=? byteVal c) && (byteVal c <=? 122)).

(** [s] between back quotes. *)
Definition rawQuoted (s : string) : string :=
  String strconv.bquote (s ++ String strconv.bquote "").

(** A string of the canonical alphabet: upper-case letters, digits and the
    two signs. *)
Definition isCanonicalByte (c : ascii) : bool :=
  ((65 <=? byteVal c) && (byteVal c <=? 90)) || isDigit c || isSign c.

End Spec.

(** * Properties *)

(** ** Machine integers *)

Lemma pow2_bits (sz : IntSize) :
  2 ^ bitsOf sz = 2 * 2 ^ (bitsOf sz - 1) /\ 2 ^ 31 <= 2 ^ (bitsOf sz - 1) <= 2 ^ 63.
Proof. destruct sz; cbn [bitsOf]; split; try reflexivity; split; discriminate. Qed.

Lemma wrapInt_id (sz : IntSize) (z : Z) : isInt sz z -> wrapInt sz z = z.
Proof.
  unfold isInt, minInt, maxInt, wrapInt; intros H.
  destruct (pow2_bits sz) as [E _]. rewrite E.
  rewrite Z.mod_small; lia.
Qed.

Lemma wrapInt_isInt (sz : IntSize) (z : Z) : isInt sz (wrapInt sz z).
Proof.
  unfold isInt, minInt, maxInt, wrapInt.
  destruct (pow2_bits sz) as [E [L _]]. rewrite E.
  assert (0 < 2 ^ (bitsOf sz - 1)) by (change (2 ^ 31) with 2147483648 in L; lia).
  pose proof (Z.mod_pos_bound (z + 2 ^ (bitsOf sz - 1)) (2 * 2 ^ (bitsOf sz - 1))).
  lia.
Qed.

Lemma isInt_bounds (sz : IntSize) (z : Z) :
  isInt sz z -> - 2 ^ 63 <= z <= 2 ^ 63 - 1.
Proof.
  unfold isInt, minInt, maxInt. destruct (pow2_bits sz) as [_ [_ U]]. lia.
Qed.

Lemma isInt_small (sz : IntSize) (z : Z) :
  - 2 ^ 31 <= z <= 2 ^ 31 - 1 -> isInt sz z.
Proof.
  unfold isInt, minInt, maxInt. destruct (pow2_bits sz) as [_ [L _]]. lia.
Qed.

(** ** Bytes and strings *)

Lemma byteVal_range (c : ascii) : 0 <= byteVal c < 256.
Proof.
  unfold byteVal. pose proof (N_ascii_bounded c). lia.
Qed.

Lemma byteOf_byteVal (c : ascii) : byteOf (byteVal c) = c.
Proof.
  unfold byteOf. rewrite Z.mod_small by apply byteVal_range.
  unfold byteVal. rewrite N2Z.id. apply ascii_N_embedding.
Qed.

Lemma byteVal_byteOf (z : Z) : 0 <= z < 256 -> byteVal (byteOf z) = z.
Proof.
  intros H. unfold byteVal, byteOf. rewrite Z.mod_small by lia.
  rewrite N_ascii_embedding by lia. lia.
Qed.

Lemma byteVal_inj (c d : ascii) : byteVal c = byteVal d -> c = d.
Proof.
  intros H. rewrite <- (byteOf_byteVal c), <- (byteOf_byteVal d). now rewrite H.
Qed.

Lemma len_String (c : ascii) (s : string) : len (String c s) = len s + 1.
Proof. unfold len. cbn [String.length]. lia. Qed.

Lemma len_nonneg (s : string) : 0 <= len s.
Proof. unfold len. lia. Qed.

Lemma len_app (a b : string) : len (a ++ b) = len a + len b.
Proof.
  induction a as [|c a IH]; cbn [append].
  - unfold len; cbn; lia.
  - rewrite !len_String, IH. lia.
Qed.

Lemma append_assoc (a b c : string) : (a ++ b) ++ c = a ++ (b ++ c).
Proof. induction a as [|x a IH]; cbn; [reflexivity | now rewrite IH]. Qed.

Lemma append_nil_r (a : string) : a ++ "" = a.
Proof. induction a as [|x a IH]; cbn; [reflexivity | now rewrite IH]. Qed.

Lemma sliceTo_app (a b : string) : sliceTo (a ++ b) (String.length a) = a.
Proof.
  induction a as [|x a IH]; cbn.
  - destruct b; reflexivity.
  - now rewrite IH.
Qed.

Lemma sliceFrom_app (a b : string) : sliceFrom (a ++ b) (String.length a) = b.
Proof.
  induction a as [|x a IH]; cbn.
  - destruct b; reflexivity.
  - exact IH.
Qed.

Lemma sliceFrom_0 (a : string) : sliceFrom a 0 = a.
Proof. destruct a; reflexivity. Qed.

Lemma sliceTo_all (a : string) : sliceTo a (String.length a) = a.
Proof. induction a as [|x a IH]; cbn; [reflexivity | now rewrite IH]. Qed.

Lemma sliceFrom_all (a : string) : sliceFrom a (String.length a) = "".
Proof. induction a as [|x a IH]; cbn; [reflexivity | exact IH]. Qed.

Lemma allBytes_app (p : ascii -> bool) (a b : string) :
  Spec.allBytes p (a ++ b) = Spec.allBytes p a && Spec.allBytes p b.
Proof.
  induction a as [|x a IH]; cbn; [reflexivity|].
  rewrite IH. now rewrite andb_assoc.
Qed.

Lemma allBytes_impl (p q : ascii -> bool) (s : string) :
  (forall c, p c = true -> q c = true) ->
  Spec.allBytes p s = true -> Spec.allBytes q s = true.
Proof.
  intros Hpq. induction s as [|x s IH]; cbn; [reflexivity|].
  rewrite !andb_true_iff. intros [H1 H2]. split; auto.
Qed.

(** ** Decimal digits *)

Lemma isDigit_range (c : ascii) :
  Spec.isDigit c = true <-> 48 <= byteVal c <= 57.
Proof. unfold Spec.isDigit. rewrite andb_true_iff, !Z.leb_le. tauto. Qed.

Lemma digitsVal_app (a b : string) (n : Z) :
  Spec.digitsVal (a ++ b) n = Spec.digitsVal b (Spec.digitsVal a n).
Proof.
  revert n. induction a as [|x a IH]; intros n; cbn; [reflexivity | apply IH].
Qed.

Lemma digitsVal_mono (d : string) (n : Z) :
  Spec.allBytes Spec.isDigit d = true -> 0 <= n -> n <= Spec.digitsVal d n.
Proof.
  revert n. induction d as [|c d IH]; intros n Hd Hn; cbn in *; [lia|].
  apply andb_true_iff in Hd as [Hc Hd]. apply isDigit_range in Hc.
  specialize (IH (n * 10 + (byteVal c - 48)) Hd). lia.
Qed.

Lemma digitsVal_bound (d : string) (n : Z) :
  Spec.allBytes Spec.isDigit d = true -> 0 <= n ->
  Spec.digitsVal d n < (n + 1) * 10 ^ len d.
Proof.
  revert n. induction d as [|c d IH]; intros n Hd Hn; cbn [Spec.digitsVal].
  - unfold len; cbn. lia.
  - cbn in Hd. apply andb_true_iff in Hd as [Hc Hd]. apply isDigit_range in Hc.
    rewrite len_String, Z.pow_add_r by (pose proof (len_nonneg d); lia).
    specialize (IH (n * 10 + (byteVal c - 48)) Hd ltac:(lia)).
    assert (0 < 10 ^ len d) by (apply Z.pow_pos_nonneg; [lia | apply len_nonneg]).
    nia.
Qed.

Lemma byteVal_digit (d : Z) : 0 <= d <= 9 -> byteVal (fmt.digit d) = 48 + d.
Proof. intros H. unfold fmt.digit. apply byteVal_byteOf. lia. Qed.

Lemma fmtDecimal_buf (fuel : nat) (u : Z) (buf : string) :
  fmt.fmtDecimal fuel u buf = fmt.fmtDecimal fuel u "" ++ buf.
Proof.
  revert u buf. induction fuel as [|k IH]; intros u buf; cbn [fmt.fmtDecimal].
  - reflexivity.
  - destruct (10 <=? u); [|reflexivity].
    rewrite IH. rewrite (IH _ (String _ "")). now rewrite append_assoc.
Qed.

Lemma decimalOf_digit (u : Z) :
  0 <= u <= 9 ->
  Spec.decimalOf u (String (fmt.digit u) "") /\
  (0 < u -> fmt.digit u <> "0"%char).
Proof.
  intros Hu. pose proof (byteVal_digit u Hu) as Hb.
  split; [split; [|split]|].
  - cbn [Spec.allBytes]. rewrite andb_true_r. apply isDigit_range. lia.
  - cbn [Spec.digitsVal]. lia.
  - reflexivity.
  - intros Hpos E. rewrite E in Hb. change (byteVal "0") with 48 in Hb. lia.
Qed.

(** The digit loop of [fmtInteger] writes the decimal magnitude of [u],
    provided the buffer is long enough for it. *)
Lemma fmtDecimal_decimalOf (k : nat) (u : Z) :
  0 <= u < 10 ^ Z.of_nat (S k) ->
  Spec.decimalOf u (fmt.fmtDecimal (S k) u "") /\
  (0 < u -> exists c r, fmt.fmtDecimal (S k) u "" = String c r /\ c <> "0"%char).
Proof.
  revert u. induction k as [|k IH]; intros u Hu.
  - change (10 ^ Z.of_nat 1) with 10 in Hu.
    cbn [fmt.fmtDecimal]. destruct (Z.leb_spec 10 u) as [?|_]; [lia|].
    destruct (decimalOf_digit u ltac:(lia)) as [H1 H2].
    split; [exact H1|]. intros Hpos. eauto.
  - remember (S k) as m eqn:Em. cbn [fmt.fmtDecimal].
    destruct (Z.leb_spec 10 u) as [Hge|Hlt].
    + assert (Hq : 0 <= u / 10 < 10 ^ Z.of_nat m).
      { split; [apply Z.div_pos; lia|].
        apply Z.div_lt_upper_bound; [lia|].
        replace (Z.of_nat (S m)) with (1 + Z.of_nat m) in Hu by lia.
        rewrite Z.pow_add_r in Hu by lia. change (10 ^ 1) with 10 in Hu. lia. }
      subst m. destruct (IH (u / 10) Hq) as [[Hd [Hv _]] Hlead].
      assert (Hqpos : 0 < u / 10) by (apply Z.div_str_pos; lia).
      destruct (Hlead Hqpos) as (c & r & Ec & Hc).
      rewrite fmtDecimal_buf.
      assert (Hr : 0 <= u - u / 10 * 10 <= 9).
      { pose proof (Z.mod_pos_bound u 10 ltac:(lia)).
        pose proof (Z.div_mod u 10 ltac:(lia)). lia. }
      pose proof (byteVal_digit _ Hr) as Hb.
      split; [split; [|split]|].
      * rewrite allBytes_app, Hd. cbn [Spec.allBytes andb]. rewrite andb_true_r.
        apply isDigit_range. lia.
      * rewrite digitsVal_app, Hv. cbn [Spec.digitsVal]. lia.
      * rewrite Ec. cbn [append]. intros E; contradiction.
      * intros _. rewrite Ec. cbn [append]. eauto.
    + destruct (decimalOf_digit u ltac:(lia)) as [H1 H2].
      split; [exact H1|]. intros Hpos. eauto.
Qed.

(** Unfolds the integer bounds of a target to numerals, for [lia]. *)
Ltac int_bounds :=
  unfold isInt, minInt, maxInt, wrapInt, toUint64, toInt64, maxUint64 in *;
  cbn [bitsOf] in *;
  change (32 - 1) with 31 in *; change (64 - 1) with 63 in *;
  change (2 ^ 31) with 2147483648 in *;
  change (2 ^ 32) with 4294967296 in *;
  change (2 ^ 63) with 9223372036854775808 in *;
  change (2 ^ 64) with 18446744073709551616 in *.

(** [%+d] writes the sign of [v], always, and then its decimal magnitude. *)
Lemma fmtIntegerPlus_spec (v : Z) :
  - 2 ^ 63 <= v < 2 ^ 63 ->
  exists d, Spec.decimalOf (Z.abs v) d /\
            fmt.fmtIntegerPlus v = String (if v <? 0 then "-"%char else "+"%char) d.
Proof.
  intros Hv. unfold fmt.fmtIntegerPlus, fmt.intbufLen.
  assert (Hpow : 2 ^ 64 <= 10 ^ Z.of_nat 68) by (vm_compute; discriminate).
  int_bounds.
  destruct (Z.ltb_spec v 0) as [Hneg|Hpos].
  - assert (Eu : v mod 18446744073709551616 = v + 18446744073709551616).
    { symmetry. apply (Z.mod_unique_pos _ _ (-1)); lia. }
    rewrite Eu.
    assert (Ei : (v + 18446744073709551616 + 9223372036854775808)
                   mod 18446744073709551616 - 9223372036854775808 = v).
    { rewrite <- (Z.mod_unique_pos _ _ 1 (v + 9223372036854775808)); lia. }
    rewrite Ei. destruct (Z.ltb_spec v 0) as [_|?]; [|lia].
    assert (En : (- (v + 18446744073709551616)) mod 18446744073709551616 = - v).
    { symmetry. apply (Z.mod_unique_pos _ _ (-1)); lia. }
    rewrite En. exists (fmt.fmtDecimal 68 (- v) "").
    split; [|reflexivity].
    replace (Z.abs v) with (- v) by lia.
    apply fmtDecimal_decimalOf. lia.
  - rewrite (Z.mod_small v) by lia.
    rewrite (Z.mod_small (v + 9223372036854775808)) by lia.
    destruct (Z.ltb_spec (v + 9223372036854775808 - 9223372036854775808) 0) as [?|_]; [lia|].
    exists (fmt.fmtDecimal 68 v ""). split; [|reflexivity].
    replace (Z.abs v) with v by lia.
    apply fmtDecimal_decimalOf. lia.
Qed.

(** ** [strconv.Atoi] reads signed decimal integers *)

Section AtoiProofs.
Variable sz : IntSize.

Lemma atoiFastLoop_digits (s0 d : string) (n : Z) :
  Spec.allBytes Spec.isDigit d = true -> 0 <= n ->
  Spec.digitsVal d n <= maxInt sz ->
  strconv.atoiFastLoop sz s0 d n = (Spec.digitsVal d n, None).
Proof.
  revert n. induction d as [|c d IH]; intros n Hd Hn Hmax; [reflexivity|].
  cbn [Spec.allBytes] in Hd. apply andb_true_iff in Hd as [Hc Hd].
  apply isDigit_range in Hc. cbn [strconv.atoiFastLoop Spec.digitsVal] in *.
  rewrite (Z.mod_small (byteVal c - 48)) by lia.
  destruct (Z.ltb_spec 9 (byteVal c - 48)) as [?|_]; [lia|].
  pose proof (digitsVal_mono d (n * 10 + (byteVal c - 48)) Hd ltac:(lia)) as Hm.
  rewrite wrapInt_id.
  - apply IH; [assumption | lia | assumption].
  - unfold isInt, minInt in *. destruct (pow2_bits sz) as [_ [L _]].
    change (2 ^ 31) with 2147483648 in L. lia.
Qed.

Lemma atoiFastLoop_not_digits (s0 d : string) (n : Z) :
  Spec.allBytes Spec.isDigit d = false ->
  strconv.atoiFastLoop sz s0 d n = (0, Some (strconv.syntaxError "Atoi" s0)).
Proof.
  revert n. induction d as [|c d IH]; intros n Hd; [discriminate|].
  cbn [Spec.allBytes strconv.atoiFastLoop] in *.
  pose proof (byteVal_range c) as Hr.
  destruct (Z.ltb_spec 9 ((byteVal c - 48) mod 256)) as [_|Hle]; [reflexivity|].
  assert (Hc : Spec.isDigit c = true).
  { apply isDigit_range.
    destruct (Z.lt_ge_cases (byteVal c) 48) as [Hlt|Hge].
    - rewrite <- (Z.mod_unique_pos _ _ (-1) (byteVal c - 48 + 256)) in Hle; lia.
    - rewrite Z.mod_small in Hle; lia. }
  rewrite Hc in Hd. cbn [andb] in Hd. now apply IH.
Qed.

(** What [ParseUint]'s loop does on a byte: it goes on exactly for a
    decimal digit that keeps the number within [maxVal]. *)
Lemma parseUintLoop_step (s0 : string) (c : ascii) (d : string) (n : Z) :
  0 <= n <= 2 ^ bitsOf sz - 1 ->
  strconv.parseUintLoop sz s0 (String c d) n =
    if Spec.isDigit c then
      if n * 10 + (byteVal c - 48) <=? 2 ^ bitsOf sz - 1
      then strconv.parseUintLoop sz s0 d (n * 10 + (byteVal c - 48))
      else (2 ^ bitsOf sz - 1, Some (strconv.rangeError "ParseUint" s0))
    else (0, Some (strconv.syntaxError "ParseUint" s0)).
Proof.
  intros Hn. cbn [strconv.parseUintLoop].
  pose proof (byteVal_range c) as Hr.
  unfold Spec.isDigit.
  destruct ((48 <=? byteVal c) && (byteVal c <=? 57)) eqn:Hc.
  - apply andb_true_iff in Hc as [H1 H2]. apply Z.leb_le in H1, H2.
    destruct (Z.leb_spec 10 (byteVal c - 48)) as [?|_]; [lia|].
    assert (Hmax : 2 ^ bitsOf sz - 1 <= 18446744073709551615)
      by (destruct sz; cbn [bitsOf]; discriminate).
    unfold maxUint64, toUint64.
    change (2 ^ 64) with 18446744073709551616.
    change ((18446744073709551616 - 1) / 10 + 1) with 1844674407370955162.
    destruct (Z.leb_spec 1844674407370955162 n) as [Hcut|Hcut].
    + destruct (Z.leb_spec (n * 10 + (byteVal c - 48)) (2 ^ bitsOf sz - 1)); [lia|].
      reflexivity.
    + rewrite (Z.mod_small (n * 10)) by lia.
      destruct (Z.leb_spec (n * 10 + (byteVal c - 48)) (2 ^ bitsOf sz - 1)) as [Hle|Hgt].
      * rewrite Z.mod_small by lia.
        destruct (Z.ltb_spec (n * 10 + (byteVal c - 48)) (n * 10)); [lia|].
        destruct (Z.ltb_spec (2 ^ bitsOf sz - 1) (n * 10 + (byteVal c - 48))); [lia|].
        reflexivity.
      * destruct (Z.lt_ge_cases (n * 10 + (byteVal c - 48)) 18446744073709551616) as [Hs|Hb].
        -- rewrite Z.mod_small by lia.
           destruct (Z.ltb_spec (2 ^ bitsOf sz - 1) (n * 10 + (byteVal c - 48))); [|lia].
           now rewrite orb_true_r.
        -- rewrite <- (Z.mod_unique_pos _ _ 1 (n * 10 + (byteVal c - 48) - 18446744073709551616))
             by lia.
           destruct (Z.ltb_spec (n * 10 + (byteVal c - 48) - 18446744073709551616) (n * 10));
             [|lia].
           reflexivity.
  - destruct ((97 <=? strconv.lower (byteVal c)) && (strconv.lower (byteVal c) <=? 122)) eqn:Hl;
      [|reflexivity].
    apply andb_true_iff in Hl as [H1 H2]. apply Z.leb_le in H1, H2.
    destruct (Z.leb_spec 10 (strconv.lower (byteVal c) - 97 + 10)); [reflexivity | lia].
Qed.

Lemma parseUintLoop_digits (s0 d : string) (n : Z) :
  Spec.allBytes Spec.isDigit d = true -> 0 <= n <= 2 ^ bitsOf sz - 1 ->
  strconv.parseUintLoop sz s0 d n =
    if Spec.digitsVal d n <=? 2 ^ bitsOf sz - 1
    then (Spec.digitsVal d n, None)
    else (2 ^ bitsOf sz - 1, Some (strconv.rangeError "ParseUint" s0)).
Proof.
  revert n. induction d as [|c d IH]; intros n Hd Hn.
  - cbn. destruct (Z.leb_spec n (2 ^ bitsOf sz - 1)); [reflexivity | lia].
  - cbn [Spec.allBytes] in Hd. apply andb_true_iff in Hd as [Hc Hd].
    rewrite parseUintLoop_step by assumption. rewrite Hc.
    cbn [Spec.digitsVal]. apply isDigit_range in Hc.
    destruct (Z.leb_spec (n * 10 + (byteVal c - 48)) (2 ^ bitsOf sz - 1)) as [Hle|Hgt].
    + apply IH; [assumption | lia].
    + pose proof (digitsVal_mono d (n * 10 + (byteVal c - 48)) Hd ltac:(lia)).
      destruct (Z.leb_spec (Spec.digitsVal d (n * 10 + (byteVal c - 48))) (2 ^ bitsOf sz - 1));
        [lia | reflexivity].
Qed.

Lemma parseUintLoop_not_digits (s0 d : string) (n : Z) :
  Spec.allBytes Spec.isDigit d = false -> 0 <= n <= 2 ^ bitsOf sz - 1 ->
  strconv.parseUintLoop sz s0 d n = (0, Some (strconv.syntaxError "ParseUint" s0)) \/
  strconv.parseUintLoop sz s0 d n =
    (2 ^ bitsOf sz - 1, Some (strconv.rangeError "ParseUint" s0)).
Proof.
  revert n. induction d as [|c d IH]; intros n Hd Hn; [discriminate|].
  rewrite parseUintLoop_step by assumption.
  cbn [Spec.allBytes] in Hd.
  destruct (Spec.isDigit c) eqn:Hc; [|now left].
  cbn [andb] in Hd. apply isDigit_range in Hc.
  destruct (Z.leb_spec (n * 10 + (byteVal c - 48)) (2 ^ bitsOf sz - 1)); [|now right].
  apply IH; [assumption | lia].
Qed.

Lemma isSign_cases (c : ascii) :
  Spec.isSign c = true -> c = "+"%char \/ c = "-"%char.
Proof.
  unfold Spec.isSign. intros H. apply orb_true_iff in H as [H|H];
    apply Ascii.eqb_eq in H; auto.
Qed.

Lemma maxVal_pos : 0 <= 0 <= 2 ^ bitsOf sz - 1.
Proof. destruct sz; cbn [bitsOf]; split; discriminate. Qed.

Lemma toInt64_small (z : Z) : - 2 ^ 63 <= z < 2 ^ 63 -> toInt64 z = z.
Proof. intros H. int_bounds. rewrite Z.mod_small; lia. Qed.

(** [n := int64(un); n = -n] for a magnitude [un] up to [2^63]. *)
Lemma toInt64_negate (m : Z) : 0 <= m <= 2 ^ 63 -> toInt64 (- toInt64 m) = - m.
Proof.
  intros H. destruct (Z.eq_dec m (2 ^ 63)) as [->|Hne]; [reflexivity|].
  rewrite (toInt64_small m) by lia. apply toInt64_small. lia.
Qed.

(** Splits the goal on every integer comparison it tests. *)
Ltac split_tests :=
  repeat match goal with
         | |- context [Z.leb ?a ?b] => destruct (Z.leb_spec a b)
         | |- context [Z.ltb ?a ?b] => destruct (Z.ltb_spec a b)
         end;
  cbn [andb negb orb].

(** [ParseInt(s, 10, 0)] on a sign followed by anything. *)
Lemma ParseInt10_signed (c : ascii) (d : string) :
  Spec.isSign c = true ->
  match Spec.signedDecimal sz (String c d) with
  | Some v => strconv.ParseInt10 sz (String c d) = (v, None)
  | None => exists n k,
      strconv.ParseInt10 sz (String c d) = (n, Some (NumError "ParseInt" (String c d) k))
  end.
Proof.
  intros Hc. destruct d as [|c1 d1].
  - destruct (isSign_cases c Hc); subst c; cbn; eauto.
  - change (Spec.signedDecimal sz (String c (String c1 d1))) with
      (if Spec.isSign c && Spec.allBytes Spec.isDigit (String c1 d1) then
         let v := if (c =? "-")%char then - Spec.digitsVal (String c1 d1) 0
                  else Spec.digitsVal (String c1 d1) 0 in
         if (minInt sz <=? v) && (v <=? maxInt sz) then Some v else None
       else None).
    set (d := String c1 d1). rewrite Hc.
    cbn [andb]. unfold strconv.ParseInt10, strconv.rangeError.
    replace (if ((c =? "+") || (c =? "-"))%char then d else String c d) with d
      by (destruct (isSign_cases c Hc); subst c; reflexivity).
    change (strconv.ParseUint10 sz d) with (strconv.parseUintLoop sz d d 0).
    assert (Hpow : 2 ^ bitsOf sz = 2 * 2 ^ (bitsOf sz - 1) /\
                   2147483648 <= 2 ^ (bitsOf sz - 1) <= 2 ^ 63).
    { destruct (pow2_bits sz) as [E [L U]]. change (2 ^ 31) with 2147483648 in L. lia. }
    destruct Hpow as [E2 Hcut]. unfold minInt, maxInt.
    destruct (Spec.allBytes Spec.isDigit d) eqn:Hd.
    + rewrite (parseUintLoop_digits d d 0 Hd maxVal_pos). unfold strconv.rangeError.
      pose proof (digitsVal_mono d 0 Hd ltac:(lia)) as Hm.
      set (m := Spec.digitsVal d 0) in *. rewrite E2.
      set (cutoff := 2 ^ (bitsOf sz - 1)) in *.
      destruct (isSign_cases c Hc); subst c;
        [change (("+" =? "-")%char) with false | change (("-" =? "-")%char) with true];
        cbv zeta; split_tests; try lia; eauto.
      * now rewrite toInt64_small by lia.
      * now rewrite toInt64_negate by lia.
      * now rewrite toInt64_negate by lia.
    + destruct (parseUintLoop_not_digits d d 0 Hd maxVal_pos) as [E|E]; rewrite E.
      * cbn. eauto.
      * unfold strconv.rangeError. rewrite E2.
        set (cutoff := 2 ^ (bitsOf sz - 1)) in *.
        destruct (isSign_cases c Hc); subst c;
          [change (("+" =? "-")%char) with false | change (("-" =? "-")%char) with true];
          split_tests; try lia; eauto.
Qed.

Lemma signedDecimal_isInt (s : string) (v : Z) :
  Spec.signedDecimal sz s = Some v -> isInt sz v.
Proof.
  unfold Spec.signedDecimal. destruct s as [|c [|c1 d1]]; try discriminate.
  destruct (Spec.isSign c && _); [|discriminate]. cbv zeta.
  destruct (_ && _) eqn:Hr; [|discriminate].
  intros E; injection E as <-. apply andb_true_iff in Hr as [H1 H2].
  apply Z.leb_le in H1, H2. split; assumption.
Qed.

(** Text short enough for the fast path of [Atoi] denotes a number that
    fits an [int]. *)
Lemma fast_path_fits (d : string) :
  Spec.allBytes Spec.isDigit d = true ->
  len d + 1 < (match sz with Int32 => 10 | Int64 => 19 end) ->
  0 <= Spec.digitsVal d 0 <= maxInt sz.
Proof.
  intros Hd Hlen.
  pose proof (digitsVal_mono d 0 Hd ltac:(lia)) as Hlo.
  pose proof (digitsVal_bound d 0 Hd ltac:(lia)) as Hhi.
  pose proof (len_nonneg d) as Hl.
  split; [assumption|]. unfold maxInt.
  destruct sz; cbn [bitsOf].
  - assert (10 ^ len d <= 10 ^ 8) by (apply Z.pow_le_mono_r; lia).
    change (10 ^ 8) with 100000000 in *. change (2 ^ (32 - 1)) with 2147483648. lia.
  - assert (10 ^ len d <= 10 ^ 17) by (apply Z.pow_le_mono_r; lia).
    change (10 ^ 17) with 100000000000000000 in *.
    change (2 ^ (64 - 1)) with 9223372036854775808. lia.
Qed.

(** [strconv.Atoi] on a sign followed by anything: it returns the number a
    signed decimal integer in range denotes, and a [*NumError] naming the
    text otherwise. *)
Lemma Atoi_signed (c : ascii) (d : string) :
  Spec.isSign c = true ->
  match Spec.signedDecimal sz (String c d) with
  | Some v => strconv.Atoi sz (String c d) = (v, None)
  | None => exists n k,
      strconv.Atoi sz (String c d) = (n, Some (NumError "Atoi" (String c d) k))
  end.
Proof.
  intros Hc. unfold strconv.Atoi.
  destruct ((0 <? len (String c d)) && (len (String c d) <? _)) eqn:Hfast.
  - apply andb_true_iff in Hfast as [_ Hlen]. apply Z.ltb_lt in Hlen.
    rewrite len_String in Hlen.
    replace (((c =? "-") || (c =? "+"))%char) with true
      by (destruct (isSign_cases c Hc); subst c; reflexivity).
    cbn [andb]. destruct d as [|c1 d1]; [cbn; unfold strconv.syntaxError; now eauto|].
    change (Spec.signedDecimal sz (String c (String c1 d1))) with
      (if Spec.isSign c && Spec.allBytes Spec.isDigit (String c1 d1) then
         let v := if (c =? "-")%char then - Spec.digitsVal (String c1 d1) 0
                  else Spec.digitsVal (String c1 d1) 0 in
         if (minInt sz <=? v) && (v <=? maxInt sz) then Some v else None
       else None).
    set (d := String c1 d1) in *. rewrite Hc. cbn [andb].
    destruct (Z.ltb_spec (len d) 1) as [Hl|_].
    { unfold d in Hl. rewrite len_String in Hl. pose proof (len_nonneg d1). lia. }
    destruct (Spec.allBytes Spec.isDigit d) eqn:Hd.
    + destruct (fast_path_fits d Hd ltac:(lia)) as [Hlo Hhi].
      rewrite atoiFastLoop_digits by (assumption || lia).
      set (m := Spec.digitsVal d 0) in *. cbv zeta.
      assert (Hmin : minInt sz = - maxInt sz - 1) by (unfold minInt, maxInt; lia).
      destruct (isSign_cases c Hc); subst c;
        [change (("+" =? "-")%char) with false | change (("-" =? "-")%char) with true];
        split_tests; try lia; [reflexivity|].
      rewrite wrapInt_id; [reflexivity | split; lia].
    + rewrite atoiFastLoop_not_digits by assumption.
      unfold strconv.syntaxError. eauto.
  - pose proof (ParseInt10_signed c d Hc) as HP.
    destruct (Spec.signedDecimal sz (String c d)) as [v|] eqn:Ev.
    + rewrite HP. rewrite wrapInt_id by (eapply signedDecimal_isInt; eassumption).
      reflexivity.
    + destruct HP as (n & k & ->). eauto.
Qed.

End AtoiProofs.

(** ** [strings.IndexAny] and [strings.ToUpper] *)

Lemma containsByte_signs (c : ascii) : strings.containsByte "+-" c = Spec.isSign c.
Proof. unfold Spec.isSign. cbn. now rewrite orb_false_r. Qed.

(** [IndexAny] finds the first sign: the length of a sign-free prefix when a
    sign follows it, and -1 when nothing does. *)
Lemma IndexAny_split (name off : string) :
  Spec.allBytes (fun c => negb (Spec.isSign c)) name = true ->
  match off with "" => True | String c _ => Spec.isSign c = true end ->
  strings.IndexAny (name ++ off) "+-" =
    match off with "" => -1 | String _ _ => len name end.
Proof.
  intros Hname Hoff. induction name as [|x name IH].
  - cbn [append]. destruct off as [|c r]; [reflexivity|].
    cbn [strings.IndexAny]. rewrite containsByte_signs, Hoff. reflexivity.
  - cbn [Spec.allBytes] in Hname. apply andb_true_iff in Hname as [Hx Hname].
    cbn [append strings.IndexAny]. rewrite containsByte_signs.
    apply negb_true_iff in Hx. rewrite Hx. rewrite (IH Hname).
    destruct off.
    + reflexivity.
    + rewrite len_String. pose proof (len_nonneg name).
      destruct (Z.ltb_spec (len name) 0); [lia | reflexivity].
Qed.

Lemma upperASCII_no_lower (s : string) :
  strings.hasLower s = false -> strings.upperASCII s = s.
Proof.
  induction s as [|c s IH]; cbn [strings.hasLower strings.upperASCII]; [reflexivity|].
  intros H. apply orb_false_iff in H as [Hc Hs]. rewrite Hc, (IH Hs). reflexivity.
Qed.

(** Comparing the ASCII upper-case form with a name in upper case is
    comparing up to case. *)
Lemma upperASCII_equalFold (name anchor : string) :
  Spec.allBytes (fun y => (Spec.upperByte y =? y)%char) anchor = true ->
  (strings.upperASCII name =? anchor)%string = Spec.equalFold name anchor.
Proof.
  revert anchor. induction name as [|x name IH]; intros [|y anchor] Hup;
    cbn [strings.upperASCII Spec.equalFold String.eqb]; try reflexivity.
  cbn [Spec.allBytes] in Hup. apply andb_true_iff in Hup as [Hy Hup].
  apply Ascii.eqb_eq in Hy. rewrite Hy. fold (Spec.upperByte x).
  rewrite (IH anchor Hup).
  destruct (Ascii.eqb_spec (Spec.upperByte x) y); reflexivity.
Qed.

Lemma ToUpper_nameMatches (U : string -> string) (name anchor : string) :
  Spec.allBytes (fun y => (Spec.upperByte y =? y)%char) anchor = true ->
  (strings.ToUpper U name =? anchor)%string = Spec.nameMatches U name anchor.
Proof.
  intros Hup. unfold strings.ToUpper, Spec.nameMatches.
  destruct (strings.isASCII name); [|reflexivity].
  rewrite <- (upperASCII_equalFold name anchor Hup).
  destruct (strings.hasLower name) eqn:Hl; cbn [negb]; [reflexivity|].
  now rewrite upperASCII_no_lower.
Qed.

(** ** Quoting plain strings *)

Lemma isPlainByte_range (c : ascii) :
  Spec.isPlainByte c = true ->
  32 <= byteVal c <= 126 /\ byteVal c <> 34 /\ byteVal c <> 92.
Proof.
  unfold Spec.isPlainByte. rewrite !andb_true_iff, !negb_true_iff, !Z.leb_le, !Z.eqb_neq.
  tauto.
Qed.

Lemma isCanonicalByte_plain (c : ascii) :
  Spec.isCanonicalByte c = true -> Spec.isPlainByte c = true.
Proof.
  unfold Spec.isCanonicalByte, Spec.isPlainByte, Spec.isDigit. intros H.
  assert (Hr : 43 <= byteVal c <= 90).
  { apply orb_true_iff in H as [H|H]; [apply orb_true_iff in H as [H|H]|].
    - apply andb_true_iff in H as [H1 H2]. apply Z.leb_le in H1, H2. lia.
    - apply andb_true_iff in H as [H1 H2]. apply Z.leb_le in H1, H2. lia.
    - destruct (isSign_cases c H); subst c; cbn; lia. }
  rewrite !andb_true_iff, !negb_true_iff, !Z.leb_le, !Z.eqb_neq. lia.
Qed.

Section QuoteProofs.
Variable isPrintTables : Z -> bool.

(** [AppendQuote] copies plain bytes as they are. *)
Lemma appendQuotedLoop_plain (s : string) (fuel : nat) :
  (String.length s <= fuel)%nat -> Spec.allBytes Spec.isPlainByte s = true ->
  strconv.appendQuotedLoop isPrintTables fuel s strconv.dquote = s.
Proof.
  revert fuel. induction s as [|c s IH]; intros fuel Hfuel Hs.
  - destruct fuel; reflexivity.
  - destruct fuel as [|k]; [cbn in Hfuel; lia|].
    cbn [Spec.allBytes] in Hs. apply andb_true_iff in Hs as [Hc Hs].
    apply isPlainByte_range in Hc as (Hr & Hq & Hb).
    cbn [strconv.appendQuotedLoop]. unfold utf8.RuneSelf, utf8.RuneError.
    destruct (Z.leb_spec 128 (byteVal c)) as [?|_]; [lia|].
    change (1 =? 1) with true. cbn [andb].
    destruct (Z.eqb_spec (byteVal c) 65533) as [?|_]; [lia|].
    unfold strconv.appendEscapedRune. change (byteVal strconv.dquote) with 34.
    destruct (Z.eqb_spec (byteVal c) 34) as [?|_]; [lia|].
    destruct (Z.eqb_spec (byteVal c) 92) as [?|_]; [lia|].
    cbn [orb]. unfold strconv.IsPrint.
    destruct (Z.leb_spec (byteVal c) 255) as [_|?]; [|lia].
    destruct (Z.leb_spec 32 (byteVal c)) as [_|?]; [|lia].
    destruct (Z.leb_spec (byteVal c) 126) as [_|?]; [|lia].
    cbn [andb]. unfold utf8.AppendRune, utf8.rune1Max.
    change (2 ^ 32) with 4294967296. rewrite (Z.mod_small (byteVal c)) by lia.
    destruct (Z.leb_spec (byteVal c) 127) as [_|?]; [|lia].
    rewrite byteOf_byteVal. change (Z.to_nat 1) with 1%nat.
    cbn [sliceFrom append]. rewrite sliceFrom_0. f_equal. apply IH; [cbn in Hfuel; lia | assumption].
Qed.

(** [AppendQuote] puts a plain string between double quotes. *)
Lemma AppendQuote_plain (s : string) :
  Spec.allBytes Spec.isPlainByte s = true ->
  strconv.AppendQuote isPrintTables "" s = Spec.quoted s.
Proof.
  intros Hs. unfold strconv.AppendQuote, Spec.quoted.
  rewrite appendQuotedLoop_plain by (assumption || lia). reflexivity.
Qed.

End QuoteProofs.

Lemma index_absent (s : string) (x : ascii) :
  Spec.allBytes (fun c => negb (c =? x)%char) s = true -> strconv.index s x = -1.
Proof.
  induction s as [|c s IH]; cbn [Spec.allBytes strconv.index]; [reflexivity|].
  intros H. apply andb_true_iff in H as [Hc Hs]. apply negb_true_iff in Hc.
  rewrite Hc, (IH Hs). reflexivity.
Qed.

Lemma index_first (s t : string) (x : ascii) :
  Spec.allBytes (fun c => negb (c =? x)%char) s = true ->
  strconv.index (s ++ String x t) x = len s.
Proof.
  induction s as [|c s IH]; cbn [Spec.allBytes strconv.index append].
  - intros _. now rewrite Ascii.eqb_refl.
  - intros H. apply andb_true_iff in H as [Hc Hs]. apply negb_true_iff in Hc.
    rewrite Hc, (IH Hs), len_String. pose proof (len_nonneg s).
    destruct (Z.ltb_spec (len s) 0); [lia | reflexivity].
Qed.

Lemma ValidString_ascii (s : string) :
  Spec.allBytes (fun c => byteVal c <? 128) s = true -> utf8.ValidString s = true.
Proof.
  induction s as [|c s IH]; [reflexivity|].
  cbn [Spec.allBytes]. intros H. apply andb_true_iff in H as [Hc Hs].
  cbn [utf8.ValidString]. unfold utf8.RuneSelf. rewrite Hc. now apply IH.
Qed.

Lemma plain_not_byte (s : string) (x : ascii) :
  Spec.isPlainByte x = false ->
  Spec.allBytes Spec.isPlainByte s = true ->
  Spec.allBytes (fun c => negb (c =? x)%char) s = true.
Proof.
  intros Hx. apply allBytes_impl. intros c Hc.
  apply negb_true_iff. destruct (Ascii.eqb_spec c x) as [->|]; congruence.
Qed.

(** [Unquote] takes the double quotes off a plain string. *)
Lemma Unquote_plain (s : string) :
  Spec.allBytes Spec.isPlainByte s = true ->
  strconv.Unquote (Spec.quoted s) = (s, None).
Proof.
  intros Hs. unfold strconv.Unquote, Spec.quoted.
  set (rest := s ++ String strconv.dquote "").
  assert (Hrest : exists c r, rest = String c r)
    by (unfold rest; destruct s; cbn; eauto).
  assert (Hlen : String.length rest = S (String.length s)).
  { unfold rest. clear. induction s; cbn; congruence. }
  assert (Hidx : strconv.index rest strconv.dquote = len s)
    by (apply index_first, plain_not_byte; [reflexivity | assumption]).
  assert (Hno : forall x, Spec.isPlainByte x = false -> (strconv.dquote =? x)%char = false ->
            strconv.contains (String strconv.dquote rest) x = false).
  { intros x Hx Hq. unfold strconv.contains. rewrite index_absent; [reflexivity|].
    cbn [Spec.allBytes]. unfold rest. rewrite allBytes_app.
    rewrite (plain_not_byte s x Hx Hs). cbn [Spec.allBytes].
    now rewrite Hq. }
  destruct Hrest as (c & r & Er).
  unfold strconv.unquote. rewrite Er. cbv beta iota. rewrite <- Er, Hidx.
  pose proof (len_nonneg s) as Hl.
  destruct (Z.ltb_spec (len s) 0) as [?|_]; [lia|].
  replace (Z.to_nat (len s + 2)) with (S (S (String.length s))) by (unfold len; lia).
  replace (S (S (String.length s)) - 1)%nat with (S (String.length s)) by lia.
  assert (Ebody : sliceFrom (sliceTo (String strconv.dquote rest) (S (String.length s))) 1 = s).
  { cbn [sliceTo sliceFrom]. rewrite sliceFrom_0. unfold rest. apply sliceTo_app. }
  assert (Eall : sliceTo (String strconv.dquote rest) (S (S (String.length s)))
                 = String strconv.dquote rest).
  { cbn [sliceTo]. rewrite <- Hlen. now rewrite sliceTo_all. }
  assert (Erem : sliceFrom (String strconv.dquote rest) (S (S (String.length s))) = "").
  { cbn [sliceFrom]. rewrite <- Hlen. apply sliceFrom_all. }
  rewrite Ebody, Eall, Erem.
  change ((strconv.dquote =? strconv.bquote)%char) with false.
  change ((strconv.dquote =? strconv.dquote)%char) with true.
  cbn [orb]. rewrite !Hno by reflexivity. cbn [negb andb].
  rewrite ValidString_ascii.
  - reflexivity.
  - apply (allBytes_impl Spec.isPlainByte); [|assumption].
    intros x Hx. apply isPlainByte_range in Hx. apply Z.ltb_lt. lia.
Qed.

(** The only error of [Unquote] is [ErrSyntax], with an empty result. *)
Lemma unquote_error (inp : string) :
  snd (strconv.unquote inp) = None \/
  exists rem, strconv.unquote inp = ("", rem, Some UnquoteSyntax).
Proof.
  unfold strconv.unquote.
  repeat match goal with
         | |- context [match ?x with _ => _ end] => destruct x
         end; cbn [snd]; eauto.
Qed.

Lemma Unquote_error (data : string) :
  snd (strconv.Unquote data) = None \/
  strconv.Unquote data = ("", Some UnquoteSyntax).
Proof.
  unfold strconv.Unquote.
  destruct (unquote_error data) as [H|(rem & ->)].
  - destruct (strconv.unquote data) as [[out rem] err]. cbn [snd] in H. subst err.
    destruct (0 <? len rem); auto.
  - destruct (0 <? len rem); auto.
Qed.

(** ** The loops over runes never run out of fuel *)

Lemma sliceFrom_length (s : string) (n : nat) :
  String.length (sliceFrom s n) = (String.length s - n)%nat.
Proof.
  revert s. induction n as [|n IH]; intros [|c s]; cbn; auto.
Qed.

(** A rune decoded from a string that is not empty is 1 to 4 bytes wide. *)
Lemma DecodeRuneInString_width (c : ascii) (s : string) :
  1 <= snd (utf8.DecodeRuneInString (String c s)) <= 4.
Proof.
  unfold utf8.DecodeRuneInString.
  repeat match goal with
         | |- context [match ?x with _ => _ end] => destruct x
         end; cbn [snd]; lia.
Qed.

(** [UnquoteChar] consumes at least one byte. *)
Lemma UnquoteChar_shorter (s : string) (quote : ascii) (r : Z) (mb : bool) (rem : string) :
  strconv.UnquoteChar s quote = Some (r, mb, rem) ->
  (String.length rem < String.length s)%nat.
Proof.
  unfold strconv.UnquoteChar. destruct s as [|c0 r0]; [discriminate|].
  destruct (_ && _); [discriminate|].
  destruct (utf8.RuneSelf <=? byteVal c0).
  - pose proof (DecodeRuneInString_width c0 r0) as Hw.
    destruct (utf8.DecodeRuneInString (String c0 r0)) as [r' size]. cbn [snd] in Hw.
    intros E; injection E as <- <- <-.
    destruct (Z.to_nat size) as [|k] eqn:Ek; [lia|].
    rewrite sliceFrom_length. cbn [String.length]. lia.
  - destruct (negb _); [intros E; injection E as <- <- <-; cbn; lia|].
    destruct r0 as [|c1 s]; [discriminate|].
    repeat match goal with
           | |- context [match ?x with _ => _ end] => destruct x
           end;
      intros E; try discriminate E; injection E as <- <- <-;
      cbn [String.length]; rewrite ?sliceFrom_length; cbn [String.length]; lia.
Qed.

(** The loop of [unquote] gives the same result with any fuel from the
    length of its input on: [fuel = len(in)] never cuts it short. *)
Lemma unquoteLoop_fuel (quote : ascii) (f1 f2 : nat) (inp buf : string) :
  (String.length inp <= f1)%nat -> (String.length inp <= f2)%nat ->
  strconv.unquoteLoop f1 quote inp buf = strconv.unquoteLoop f2 quote inp buf.
Proof.
  revert f2 inp buf. induction f1 as [|k IH]; intros f2 inp buf H1 H2.
  - destruct inp; [destruct f2; reflexivity | cbn in H1; lia].
  - destruct inp as [|c r]; [destruct f2; reflexivity|].
    destruct f2 as [|k2]; [cbn in H2; lia|].
    cbn [strconv.unquoteLoop]. destruct (c =? quote)%char; [reflexivity|].
    destruct (strconv.UnquoteChar (String c r) quote) as [[[v mb] rem]|] eqn:E;
      [|reflexivity].
    apply UnquoteChar_shorter in E.
    destruct (byteVal c =? 10); [reflexivity|].
    destruct (quote =? strconv.squote)%char; [reflexivity|].
    apply IH; lia.
Qed.

Section QuoteFuel.
Variable isPrintTables : Z -> bool.

(** The loop of [appendQuotedWith] likewise. *)
Lemma appendQuotedLoop_fuel (quote : ascii) (f1 f2 : nat) (s : string) :
  (String.length s <= f1)%nat -> (String.length s <= f2)%nat ->
  strconv.appendQuotedLoop isPrintTables f1 s quote =
  strconv.appendQuotedLoop isPrintTables f2 s quote.
Proof using Type.
  revert f2 s. induction f1 as [|k IH]; intros f2 s H1 H2.
  - destruct s; [destruct f2; reflexivity | cbn in H1; lia].
  - destruct s as [|c r]; [destruct f2; reflexivity|].
    destruct f2 as [|k2]; [cbn in H2; lia|].
    cbn [strconv.appendQuotedLoop].
    pose proof (DecodeRuneInString_width c r) as Hw.
    destruct (utf8.RuneSelf <=? byteVal c).
    + destruct (utf8.DecodeRuneInString (String c r)) as [v width]. cbn [snd] in Hw.
      f_equal. apply IH; rewrite sliceFrom_length; cbn [String.length] in *; lia.
    + f_equal. apply IH; rewrite sliceFrom_length; cbn [String.length] in *; lia.
Qed.

End QuoteFuel.

(** ** [Level.parse] *)

Section LevelProofs.
Variable sz : IntSize.
Variable mapUnicodeToUpper : string -> string.

Local Abbreviation Level_String := (logs.String sz).
Local Abbreviation parse := (logs.parse sz mapUnicodeToUpper).
Local Abbreviation UnmarshalText := (logs.UnmarshalText sz mapUnicodeToUpper).
Local Abbreviation UnmarshalJSON := (logs.UnmarshalJSON sz mapUnicodeToUpper).
Local Abbreviation MarshalText := (logs.MarshalText sz).
Local Abbreviation AppendText := (logs.AppendText sz).
Local Abbreviation lookupAnchor := (Spec.lookupAnchor mapUnicodeToUpper).

(** The [switch] of [parse] is the search of the anchor table up to case. *)
Lemma switch_lookupAnchor (name : string) :
  (if (strings.ToUpper mapUnicodeToUpper name =? "TRACE")%string
   then Some logs.LevelTrace
   else if (strings.ToUpper mapUnicodeToUpper name =? "DEBUG")%string
   then Some logs.LevelDebug
   else if (strings.ToUpper mapUnicodeToUpper name =? "INFO")%string
   then Some logs.LevelInfo
   else if (strings.ToUpper mapUnicodeToUpper name =? "WARN")%string
   then Some logs.LevelWarn
   else if (strings.ToUpper mapUnicodeToUpper name =? "ERROR")%string
   then Some logs.LevelError
   else None) = lookupAnchor name.
Proof.
  rewrite !ToUpper_nameMatches by reflexivity.
  unfold Spec.lookupAnchor, Spec.anchors. cbn [find fst].
  repeat (destruct (Spec.nameMatches _ name _); [reflexivity|]).
  reflexivity.
Qed.

(** [parse] in terms of the two segments of its input. *)
Lemma parse_split (l : logs.Level) (s name off : string) :
  Spec.splitAtSign s name off ->
  parse l s =
    match off with
    | "" =>
        match lookupAnchor name with
        | Some a => (wrapInt sz (a + 0), None)
        | None => (l, Some (ErrorfUnknownName name))
        end
    | String _ _ =>
        match strconv.Atoi sz off with
        | (_, Some err) => (l, Some (ErrorfLevelString s err))
        | (offset, None) =>
            match lookupAnchor name with
            | Some a => (wrapInt sz (a + offset), None)
            | None => (l, Some (ErrorfUnknownName name))
            end
        end
    end.
Proof.
  intros (Es & Hname & Hoff). subst s. unfold logs.parse. cbv zeta.
  rewrite (IndexAny_split name off Hname Hoff).
  destruct off as [|c r].
  - rewrite append_nil_r.
    change (0 <=? -1) with false. cbv iota beta.
    rewrite (switch_lookupAnchor name). reflexivity.
  - pose proof (len_nonneg name) as Hl.
    destruct (Z.leb_spec 0 (len name)) as [_|?]; [|lia].
    unfold len. rewrite Nat2Z.id.
    rewrite sliceTo_app, sliceFrom_app.
    destruct (strconv.Atoi sz (String c r)) as [offset [err|]]; [reflexivity|].
    cbv iota beta. rewrite (switch_lookupAnchor name). reflexivity.
Qed.

Lemma lookupAnchor_bounds (name : string) (a : Z) :
  lookupAnchor name = Some a -> -8 <= a <= 8.
Proof.
  unfold Spec.lookupAnchor, Spec.anchors. cbn [find fst].
  repeat (destruct (Spec.nameMatches _ name _);
          [intros E; injection E as <-; cbn; lia|]).
  discriminate.
Qed.

Lemma anchor_plus_zero (a : Z) : -8 <= a <= 8 -> wrapInt sz (a + 0) = a.
Proof.
  intros H. rewrite Z.add_0_r. apply wrapInt_id, isInt_small.
  change (2 ^ 31) with 2147483648. lia.
Qed.

(** ** [Level.String] *)

(** The closure [str] writes the canonical form. *)
Lemma str_canonical (name : string) (v : Z) :
  isInt sz v -> Spec.canonical name v (logs.str name v).
Proof.
  intros Hv. unfold logs.str, Spec.canonical.
  destruct (Z.eqb_spec v 0) as [_|Hne]; [reflexivity|].
  destruct (fmtIntegerPlus_spec v) as (d & Hd & E).
  { pose proof (isInt_bounds sz v Hv). lia. }
  exists d. split; [assumption|]. unfold fmt.Sprintf_s_plus_d. rewrite E.
  destruct (Z.ltb_spec v 0), (Z.ltb_spec 0 v); (reflexivity || lia).
Qed.

Lemma In_anchors (na : string * Z) (P : string * Z -> Prop) :
  P ("TRACE", -8) -> P ("DEBUG", -4) -> P ("INFO", 0) -> P ("WARN", 4) ->
  P ("ERROR", 8) -> In na Spec.anchors -> P na.
Proof.
  intros H1 H2 H3 H4 H5 Hin. unfold Spec.anchors in Hin. cbn [In] in Hin.
  repeat (destruct Hin as [<-|Hin]; [assumption|]). contradiction.
Qed.

(** [String] selects the anchor of the band of [l] and writes the canonical
    form of [l] against it; the offset it computes does not overflow. *)
Lemma String_band (l : logs.Level) :
  isInt sz l ->
  exists na, Spec.bandAnchor l na /\ isInt sz (l - snd na) /\
             Spec.canonical (fst na) (l - snd na) (Level_String l).
Proof using sz.
  intros Hl. pose proof Hl as Hl'. unfold isInt, minInt, maxInt in Hl'.
  destruct (pow2_bits sz) as [_ [L _]]. change (2 ^ 31) with 2147483648 in L.
  assert (Hsub : forall a, -8 <= a <= 8 -> (l <= 8 \/ 0 <= a) ->
                           (-8 <= l \/ a <= 0) -> isInt sz (l - a)).
  { intros a Ha Hb Hc. unfold isInt, minInt, maxInt. lia. }
  assert (Hgreatest : forall a, (forall b, In b [-8; -4; 0; 4; 8] -> b <= l -> b <= a) ->
            forall nb, In nb Spec.anchors -> snd nb <= l -> snd nb <= a).
  { intros a Ha nb Hin. revert Hin.
    apply (In_anchors nb (fun nb => snd nb <= l -> snd nb <= a));
      cbn [snd]; apply Ha; cbn [In]; auto 10. }
  unfold logs.String, logs.LevelDebug, logs.LevelInfo, logs.LevelWarn, logs.LevelError,
    logs.LevelTrace, slog.LevelDebug, slog.LevelInfo, slog.LevelWarn, slog.LevelError.
  destruct (Z.ltb_spec l (-4)); [exists ("TRACE", -8)|];
  [|destruct (Z.ltb_spec l 0); [exists ("DEBUG", -4)|]];
  [| |destruct (Z.ltb_spec l 4); [exists ("INFO", 0)|]];
  [| | |destruct (Z.ltb_spec l 8); [exists ("WARN", 4)|exists ("ERROR", 8)]];
  cbn [fst snd];
  match goal with
  | |- _ /\ isInt sz (l - ?a) /\ _ =>
      assert (Hoff : isInt sz (l - a)) by (apply Hsub; lia)
  end;
  (split; [|split; [exact Hoff|]]);
  try (rewrite (wrapInt_id _ _ Hoff); apply str_canonical; exact Hoff).
  all: split; [unfold Spec.anchors; cbn [In]; auto 10|].
  1: right; split; [lia | reflexivity].
  all: cbn [snd]; left; split; [lia|]; apply Hgreatest;
    intros b Hb; cbn [In] in Hb; lia.
Qed.

(** What [parse] needs of an anchor name: no sign in it, and the table
    gives its value back. *)
Lemma anchor_facts (na : string * Z) :
  In na Spec.anchors ->
  Spec.allBytes (fun c => negb (Spec.isSign c)) (fst na) = true /\
  lookupAnchor (fst na) = Some (snd na) /\
  Spec.allBytes Spec.isCanonicalByte (fst na) = true /\
  -8 <= snd na <= 8.
Proof.
  apply (In_anchors na (fun na =>
           Spec.allBytes (fun c => negb (Spec.isSign c)) (fst na) = true /\
           lookupAnchor (fst na) = Some (snd na) /\
           Spec.allBytes Spec.isCanonicalByte (fst na) = true /\
           -8 <= snd na <= 8));
    (repeat split; [reflexivity .. | |]; cbn [snd]; lia).
Qed.

Lemma signedDecimal_of_decimal (v : Z) (d : string) :
  Spec.decimalOf (Z.abs v) d -> v <> 0 -> isInt sz v ->
  Spec.signedDecimal sz (String (if 0 <? v then "+"%char else "-"%char) d) = Some v.
Proof.
  intros (Hd & Hv & Hne) Hv0 [Hlo Hhi].
  destruct d as [|c1 d1]; [contradiction|]. clear Hne.
  set (d := String c1 d1) in *.
  change (Spec.signedDecimal sz (String ?c d)) with
    (if Spec.isSign c && Spec.allBytes Spec.isDigit d then
       let v := if (c =? "-")%char then - Spec.digitsVal d 0 else Spec.digitsVal d 0 in
       if (minInt sz <=? v) && (v <=? maxInt sz) then Some v else None
     else None).
  rewrite Hd, Hv.
  destruct (Z.ltb_spec 0 v);
    [change (Spec.isSign "+") with true; change (("+" =? "-")%char) with false
    |change (Spec.isSign "-") with true; change (("-" =? "-")%char) with true];
    cbv zeta; cbn [andb].
  - replace (Z.abs v) with v by lia.
    destruct (Z.leb_spec (minInt sz) v), (Z.leb_spec v (maxInt sz)); (reflexivity || lia).
  - replace (- Z.abs v) with v by lia.
    destruct (Z.leb_spec (minInt sz) v), (Z.leb_spec v (maxInt sz)); (reflexivity || lia).
Qed.

(** [parse] gives back the value of a canonical form. *)
Lemma parse_canonical (l0 : logs.Level) (na : string * Z) (v : Z) (out : string) :
  In na Spec.anchors -> isInt sz v -> isInt sz (snd na + v) ->
  Spec.canonical (fst na) v out ->
  parse l0 out = (snd na + v, None).
Proof.
  intros Hin Hv Hsum Hcan.
  destruct (anchor_facts na Hin) as (Hns & Hlook & _ & Hb).
  unfold Spec.canonical in Hcan. destruct (Z.eqb_spec v 0) as [->|Hne].
  - subst out. rewrite (parse_split l0 (fst na) (fst na) "").
    + rewrite Hlook, anchor_plus_zero by assumption. now rewrite Z.add_0_r.
    + split; [now rewrite append_nil_r | split; [assumption | exact I]].
  - destruct Hcan as (d & Hd & ->).
    set (c := if 0 <? v then "+"%char else "-"%char).
    assert (Hc : Spec.isSign c = true) by (unfold c; destruct (0 <? v); reflexivity).
    rewrite (parse_split l0 _ (fst na) (String c d))
      by (split; [reflexivity | split; assumption]).
    pose proof (Atoi_signed sz c d Hc) as HA.
    unfold c in HA. rewrite (signedDecimal_of_decimal v d Hd Hne Hv) in HA.
    fold c in HA. rewrite HA, Hlook. now rewrite wrapInt_id.
Qed.

Lemma String_round_trip (l0 l : logs.Level) :
  isInt sz l -> parse l0 (Level_String l) = (l, None).
Proof.
  intros Hl. destruct (String_band l Hl) as (na & (Hin & _) & Hoff & Hcan).
  rewrite (parse_canonical l0 na (l - snd na) _ Hin Hoff).
  - f_equal. lia.
  - now replace (snd na + (l - snd na)) with l by lia.
  - assumption.
Qed.

(** Every byte [String] writes is an upper-case letter, a digit or a sign. *)
Lemma String_bytes (l : logs.Level) :
  isInt sz l -> Spec.allBytes Spec.isCanonicalByte (Level_String l) = true.
Proof.
  intros Hl. destruct (String_band l Hl) as (na & (Hin & _) & Hoff & Hcan).
  destruct (anchor_facts na Hin) as (_ & _ & Hname & _).
  unfold Spec.canonical in Hcan. destruct (l - snd na =? 0); [now rewrite Hcan|].
  destruct Hcan as (d & (Hd & _) & ->).
  rewrite allBytes_app, Hname. cbn [andb Spec.allBytes].
  apply andb_true_iff. split.
  - destruct (0 <? l - snd na); reflexivity.
  - apply (allBytes_impl Spec.isDigit); [|assumption].
    intros c Hc. unfold Spec.isCanonicalByte. rewrite Hc.
    now rewrite orb_true_r.
Qed.

(** [parse] either succeeds with a value that depends on the input alone, or
    fails with an error that depends on the input alone and leaves the
    destination as it was. *)
Lemma parse_outcome (s : string) :
  (exists v, forall l, parse l s = (v, None)) \/
  (exists e, forall l, parse l s = (l, Some e)).
Proof.
  unfold logs.parse. cbv zeta.
  destruct (0 <=? strings.IndexAny s "+-").
  - destruct (strconv.Atoi sz _) as [offset [err|]]; [right; eauto|].
    cbv beta iota.
    repeat match goal with
           | |- context [if ?b then _ else _] => destruct b; [left; eauto|]
           end.
    right; eauto.
  - cbv beta iota.
    repeat match goal with
           | |- context [if ?b then _ else _] => destruct b; [left; eauto|]
           end.
    right; eauto.
Qed.

Lemma UnmarshalJSON_outcome (data : string) :
  (exists v, forall l, UnmarshalJSON l data = (v, None)) \/
  (exists e, forall l, UnmarshalJSON l data = (l, Some e)).
Proof.
  unfold logs.UnmarshalJSON.
  destruct (strconv.Unquote data) as [s [err|]]; [right; eauto|].
  apply parse_outcome.
Qed.

(** *** The claims of the specification *)

(** C1. Round trip: for every Level value [l], [parse] applied to the
    encoding [String l] returns no error and stores exactly [l], whatever
    the destination held before. *)
Theorem parse_String_round_trip (l0 l : logs.Level) :
  isInt sz l -> parse l0 (Level_String l) = (l, None).
Proof. apply String_round_trip. Qed.

(** C2. For every Level value [l], [String] selects the greatest anchor not
    above [l] (values below DEBUG's anchor select TRACE, ERROR's band has no
    upper end) and, with [offset = l - a], writes the upper-case name alone
    when the offset is zero and otherwise the name, an explicit sign and the
    decimal magnitude of the offset.  In particular [LevelWarn - 1] is
    written INFO+3 and [LevelDebug - 2] is written TRACE+2. *)
Theorem String_greatest_anchor :
  (forall l : logs.Level, isInt sz l ->
     exists na, Spec.bandAnchor l na /\
                Spec.canonical (fst na) (l - snd na) (Level_String l)) /\
  Level_String (logs.LevelWarn - 1) = "INFO+3" /\
  Level_String (logs.LevelDebug - 2) = "TRACE+2".
Proof.
  split; [|split; destruct sz; reflexivity].
  intros l Hl. destruct (String_band l Hl) as (na & Hband & _ & Hcan). eauto.
Qed.

(** C3. For every input [s], split at the first ['+'] or ['-'] into the name
    segment [name] and the offset segment [off] (sign included, empty when
    there is no sign): [parse] reads the offset segment as a signed decimal
    integer (0 when absent), matches the name segment against the five
    anchor names without regard to case, and on success stores the matched
    anchor's value plus the offset, in the arithmetic of [int]; so the
    spellings info, InFo and INFO all give the same value. *)
Theorem parse_segments :
  (forall (l : logs.Level) (s name off : string),
     Spec.splitAtSign s name off ->
     match off, Spec.signedDecimal sz off with
     | "", _ =>
         parse l s = match lookupAnchor name with
                     | Some a => (a, None)
                     | None => (l, Some (ErrorfUnknownName name))
                     end
     | _, Some offset =>
         parse l s = match lookupAnchor name with
                     | Some a => (wrapInt sz (a + offset), None)
                     | None => (l, Some (ErrorfUnknownName name))
                     end /\
         (forall a, isInt sz (a + offset) -> wrapInt sz (a + offset) = a + offset)
     | _, None =>
         exists k, parse l s = (l, Some (ErrorfLevelString s (NumError "Atoi" off k)))
     end) /\
  (forall l : logs.Level,
     parse l "info" = (logs.LevelInfo, None) /\
     parse l "InFo" = (logs.LevelInfo, None) /\
     parse l "INFO" = (logs.LevelInfo, None)).
Proof.
  split; [|intros l; repeat split; destruct sz; reflexivity].
  intros l s name off Hsplit. rewrite (parse_split l s name off Hsplit).
  destruct off as [|c r].
  - destruct (lookupAnchor name) as [a|] eqn:Ea; [|reflexivity].
    now rewrite (anchor_plus_zero a (lookupAnchor_bounds name a Ea)).
  - destruct Hsplit as (_ & _ & Hc).
    pose proof (Atoi_signed sz c r Hc) as HA.
    destruct (Spec.signedDecimal sz (String c r)) as [offset|].
    + rewrite HA. split; [reflexivity|]. intros a Ha. now apply wrapInt_id.
    + destruct HA as (n & k & ->). eauto.
Qed.

(** C4, as amended. [parse] of ERROR-8 succeeds and gives the same value as
    [parse] of INFO, namely INFO's anchor value 0; [parse] of ERROR-18
    succeeds and gives [LevelError - 18 = -10]. *)
Theorem parse_ERROR_minus_8 (l : logs.Level) :
  parse l "ERROR-8" = (logs.LevelInfo, None) /\
  parse l "INFO" = (logs.LevelInfo, None) /\
  parse l "ERROR-18" = (logs.LevelError - 18, None).
Proof. repeat split; destruct sz; reflexivity. Qed.

(** C5. [parse] of the empty string and of dbg fails with an unknown-name
    error naming the unmatched text; [parse] of INFO+, INFO- and ERROR+23x
    fails with a numeric parse error (invalid syntax) naming the offset
    segment; in all five cases the destination is left as it was. *)
Theorem parse_malformed (l : logs.Level) :
  parse l "" = (l, Some (ErrorfUnknownName "")) /\
  parse l "dbg" = (l, Some (ErrorfUnknownName "dbg")) /\
  parse l "INFO+" = (l, Some (ErrorfLevelString "INFO+" (NumError "Atoi" "+" ErrSyntax))) /\
  parse l "INFO-" = (l, Some (ErrorfLevelString "INFO-" (NumError "Atoi" "-" ErrSyntax))) /\
  parse l "ERROR+23x" =
    (l, Some (ErrorfLevelString "ERROR+23x" (NumError "Atoi" "+23x" ErrSyntax))) /\
  isUnknownNameError (ErrorfUnknownName "") = true /\
  isUnknownNameError (ErrorfUnknownName "dbg") = true /\
  isParseError (ErrorfLevelString "INFO+" (NumError "Atoi" "+" ErrSyntax)) = true /\
  isParseError (ErrorfLevelString "INFO-" (NumError "Atoi" "-" ErrSyntax)) = true /\
  isParseError (ErrorfLevelString "ERROR+23x" (NumError "Atoi" "+23x" ErrSyntax)) = true.
Proof. repeat split; destruct sz; reflexivity. Qed.

Section WithPrintTables.
Variable isPrintTables : Z -> bool.
Local Abbreviation MarshalJSON := (logs.MarshalJSON sz isPrintTables).

(** C6. For every Level value [l], [MarshalJSON] produces exactly the
    encoding [String l] between double quotes; [UnmarshalJSON] takes the
    quoting off and hands the string to [parse]; and unmarshaling what
    [MarshalJSON] produced stores [l] again, in particular for a value of
    each of the five bands and for a value below TRACE's anchor. *)
Theorem JSON_round_trip :
  (forall l : logs.Level, isInt sz l ->
     MarshalJSON l = (Spec.quoted (Level_String l), None) /\
     forall l0, UnmarshalJSON l0 (fst (MarshalJSON l)) = (l, None)) /\
  (forall (l0 : logs.Level) (s : string),
     Spec.allBytes Spec.isPlainByte s = true ->
     UnmarshalJSON l0 (Spec.quoted s) = parse l0 s) /\
  (forall (l0 : logs.Level) (data s : string),
     strconv.Unquote data = (s, None) -> UnmarshalJSON l0 data = parse l0 s) /\
  Forall (fun l => forall l0, UnmarshalJSON l0 (fst (MarshalJSON l)) = (l, None))
         [-10; -6; -3; 1; 5; 10].
Proof.
  assert (Hplain : forall l, isInt sz l ->
            Spec.allBytes Spec.isPlainByte (Level_String l) = true).
  { intros l Hl. apply (allBytes_impl Spec.isCanonicalByte).
    - apply isCanonicalByte_plain.
    - now apply String_bytes. }
  assert (Hround : forall l, isInt sz l ->
            MarshalJSON l = (Spec.quoted (Level_String l), None) /\
            forall l0, UnmarshalJSON l0 (fst (MarshalJSON l)) = (l, None)).
  { intros l Hl. unfold logs.MarshalJSON.
    rewrite (AppendQuote_plain isPrintTables _ (Hplain l Hl)).
    split; [reflexivity|]. intros l0. cbn [fst]. unfold logs.UnmarshalJSON.
    rewrite (Unquote_plain _ (Hplain l Hl)). now apply String_round_trip. }
  split; [exact Hround|]. split; [|split].
  - intros l0 s Hs. unfold logs.UnmarshalJSON. now rewrite (Unquote_plain s Hs).
  - intros l0 data s E. unfold logs.UnmarshalJSON. now rewrite E.
  - repeat constructor; apply Hround, isInt_small;
      change (2 ^ 31) with 2147483648; lia.
Qed.

End WithPrintTables.


(** C8. For every Level value [l] and every buffer [b], [AppendText]
    returns the bytes of [b], unchanged and in order, followed by exactly
    the bytes of [String l] and nothing else; [MarshalText] returns exactly
    the bytes of [String l], with no quoting and no terminator. *)
Theorem AppendText_frame (l : logs.Level) (b : string) :
  AppendText l b = (b ++ Level_String l, None) /\
  sliceTo (fst (AppendText l b)) (String.length b) = b /\
  sliceFrom (fst (AppendText l b)) (String.length b) = Level_String l /\
  len (fst (AppendText l b)) = len b + len (Level_String l) /\
  MarshalText l = (Level_String l, None).
Proof.
  unfold logs.MarshalText, logs.AppendText. cbn [fst].
  repeat split.
  - apply sliceTo_app.
  - apply sliceFrom_app.
  - apply len_app.
Qed.

(** C9. Whenever [parse], [UnmarshalText] or [UnmarshalJSON] returns an
    error, the destination Level holds exactly the value it held before the
    call; and the error returned is a function of the input alone, the same
    whatever the destination held. *)
Theorem error_leaves_level (l : logs.Level) (s : string) :
  (snd (parse l s) <> None -> fst (parse l s) = l) /\
  (snd (UnmarshalText l s) <> None -> fst (UnmarshalText l s) = l) /\
  (snd (UnmarshalJSON l s) <> None -> fst (UnmarshalJSON l s) = l) /\
  (forall l', snd (parse l' s) = snd (parse l s) /\
              snd (UnmarshalText l' s) = snd (UnmarshalText l s) /\
              snd (UnmarshalJSON l' s) = snd (UnmarshalJSON l s)).
Proof.
  unfold logs.UnmarshalText.
  assert (HP : (snd (parse l s) <> None -> fst (parse l s) = l) /\
               forall l', snd (parse l' s) = snd (parse l s)).
  { destruct (parse_outcome s) as [(v & H)|(e & H)].
    - split; [rewrite (H l); cbn; congruence|].
      intros l'. now rewrite (H l), (H l').
    - split; [now rewrite (H l)|]. intros l'. now rewrite (H l), (H l'). }
  assert (HJ : (snd (UnmarshalJSON l s) <> None -> fst (UnmarshalJSON l s) = l) /\
               forall l', snd (UnmarshalJSON l' s) = snd (UnmarshalJSON l s)).
  { destruct (UnmarshalJSON_outcome s) as [(v & H)|(e & H)].
    - split; [rewrite (H l); cbn; congruence|].
      intros l'. now rewrite (H l), (H l').
    - split; [now rewrite (H l)|]. intros l'. now rewrite (H l), (H l'). }
  destruct HP as [HP1 HP2], HJ as [HJ1 HJ2]. repeat split; auto.
Qed.

(** C10, as amended. For every input that begins with ['+'] or ['-'] the
    name segment is empty and [parse] fails, leaving the destination as it
    was: with an unknown-name error for the empty name when the whole input
    is a signed decimal integer in the range of [int] (as -8 and +3 are), and
    with a numeric parse error naming the input otherwise; so no Level is
    ever parsed from a bare numeric literal. *)
Theorem parse_leading_sign :
  (forall (l : logs.Level) (c : ascii) (r : string),
     Spec.isSign c = true ->
     Spec.splitAtSign (String c r) "" (String c r) /\
     match Spec.signedDecimal sz (String c r) with
     | Some _ => parse l (String c r) = (l, Some (ErrorfUnknownName ""))
     | None =>
         exists k, parse l (String c r) =
           (l, Some (ErrorfLevelString (String c r) (NumError "Atoi" (String c r) k)))
     end) /\
  (forall l : logs.Level,
     parse l "-8" = (l, Some (ErrorfUnknownName "")) /\
     parse l "+3" = (l, Some (ErrorfUnknownName ""))).
Proof.
  split; [|intros l; split; destruct sz; reflexivity].
  intros l c r Hc.
  assert (Hsplit : Spec.splitAtSign (String c r) "" (String c r))
    by (split; [reflexivity | split; [reflexivity | exact Hc]]).
  split; [exact Hsplit|].
  rewrite (parse_split l _ "" (String c r) Hsplit).
  pose proof (Atoi_signed sz c r Hc) as HA.
  destruct (Spec.signedDecimal sz (String c r)) as [v|].
  - rewrite HA. reflexivity.
  - destruct HA as (n & k & ->). eauto.
Qed.

End LevelProofs.

(** ** The claims at concrete inputs

    On a 64-bit target, with the identity for the Unicode mapping (the
    inputs below are ASCII, which never reaches it) and no printable rune
    above Latin-1. *)

Lemma parse_String_round_trip_witness :
  isInt Int64 3 /\
  logs.parse Int64 (fun s => s) 77 (logs.String Int64 3) = (3, None).
Proof.
  assert (H : isInt Int64 3) by (unfold isInt, minInt, maxInt; cbn; lia).
  split; [exact H|].
  exact (parse_String_round_trip Int64 (fun s => s) 77 3 H).
Defined.

Lemma String_greatest_anchor_witness :
  isInt Int64 (-6) /\
  exists na, Spec.bandAnchor (-6) na /\
             Spec.canonical (fst na) (-6 - snd na) (logs.String Int64 (-6)).
Proof.
  assert (H : isInt Int64 (-6)) by (unfold isInt, minInt, maxInt; cbn; lia).
  split; [exact H|].
  exact (proj1 (String_greatest_anchor Int64) (-6) H).
Defined.

Lemma parse_segments_witness :
  Spec.splitAtSign "Error-8" "Error" "-8" /\
  logs.parse Int64 (fun s => s) 77 "Error-8" = (0, None).
Proof.
  assert (H : Spec.splitAtSign "Error-8" "Error" "-8")
    by (repeat split; reflexivity).
  split; [exact H|].
  exact (proj1 (proj1 (parse_segments Int64 (fun s => s)) 77 "Error-8" "Error" "-8" H)).
Defined.

Lemma JSON_round_trip_witness :
  isInt Int64 1 /\
  logs.MarshalJSON Int64 (fun _ => false) 1 = (Spec.quoted "INFO+1", None) /\
  logs.UnmarshalJSON Int64 (fun s => s) 77
    (fst (logs.MarshalJSON Int64 (fun _ => false) 1)) = (1, None).
Proof.
  assert (H : isInt Int64 1) by (unfold isInt, minInt, maxInt; cbn; lia).
  split; [exact H|].
  destruct (proj1 (JSON_round_trip Int64 (fun s => s) (fun _ => false)) 1 H) as [HM HU].
  split; [exact HM | exact (HU 77)].
Defined.


Lemma error_leaves_level_witness :
  snd (logs.parse Int64 (fun s => s) 77 "dbg") <> None /\
  fst (logs.parse Int64 (fun s => s) 77 "dbg") = 77.
Proof.
  assert (H : snd (logs.parse Int64 (fun s => s) 77 "dbg") <> None)
    by (vm_compute; discriminate).
  split; [exact H|].
  exact (proj1 (error_leaves_level Int64 (fun s => s) 77 "dbg") H).
Defined.

Lemma parse_leading_sign_witness :
  Spec.isSign "-" = true /\
  logs.parse Int64 (fun s => s) 77 "-8" = (77, Some (ErrorfUnknownName "")).
Proof.
  assert (H : Spec.isSign "-" = true) by reflexivity.
  split; [exact H|].
  exact (proj2 (proj1 (parse_leading_sign Int64 (fun s => s)) 77 "-"%char "8" H)).
Defined.

(** C4, as stated, fails: on no target does [parse] of ERROR-18 store the
    value [parse] of INFO stores; it stores -10. *)
Lemma parse_ERROR_minus_18_not_INFO :
  ~ (exists sz U l,
       fst (logs.parse sz U l "ERROR-18") = fst (logs.parse sz U l "INFO")).
Proof.
  intros (sz & U & l & H). destruct sz; vm_compute in H; discriminate H.
Qed.

(** C10, as stated, fails: an input that begins with a sign does not always
    fail with an unknown-name error; a lone ['+'] fails with a numeric parse
    error. *)
Lemma leading_sign_not_always_unknown_name :
  ~ (forall sz U l c r,
       Spec.isSign c = true ->
       exists e, snd (logs.parse sz U l (String c r)) = Some e /\
                 isUnknownNameError e = true).
Proof.
  intros H.
  destruct (H Int64 (fun s => s) 0 "+"%char "" eq_refl) as (e & He & Hu).
  vm_compute in He. injection He as <-. discriminate Hu.
Qed.

(** * Further properties of [level.go] *)

Lemma segments_split (s : string) :
  Spec.splitAtSign s (Spec.nameSegment s) (Spec.offsetSegment s).
Proof.
  unfold Spec.splitAtSign. induction s as [|c s (IH1 & IH2 & IH3)].
  - repeat split.
  - cbn [Spec.nameSegment Spec.offsetSegment].
    destruct (Spec.isSign c) eqn:Hc.
    + repeat split. exact Hc.
    + cbn [append Spec.allBytes]. rewrite Hc, IH2. cbn [negb andb].
      repeat split; [now rewrite <- IH1 | exact IH3].
Qed.

(** The anchors one by one. *)
Ltac each_anchor H :=
  unfold Spec.anchors in H; cbn [In] in H;
  destruct H as [H|[H|[H|[H|[H|[]]]]]]; injection H as <- <-.

Section LevelMore.
Variable sz : IntSize.
Variable mapUnicodeToUpper : string -> string.

Local Abbreviation Level_String := (logs.String sz).
Local Abbreviation parse := (logs.parse sz mapUnicodeToUpper).
Local Abbreviation UnmarshalText := (logs.UnmarshalText sz mapUnicodeToUpper).
Local Abbreviation UnmarshalJSON := (logs.UnmarshalJSON sz mapUnicodeToUpper).
Local Abbreviation lookupAnchor := (Spec.lookupAnchor mapUnicodeToUpper).

(** [parse] in terms of the two segments of its input, the offset read as a
    signed decimal integer. *)
Lemma parse_by_segments (l : logs.Level) (s : string) :
  match Spec.offsetSegment s with
  | "" =>
      parse l s = match lookupAnchor (Spec.nameSegment s) with
                  | Some a => (a, None)
                  | None => (l, Some (ErrorfUnknownName (Spec.nameSegment s)))
                  end
  | String c r =>
      match Spec.signedDecimal sz (String c r) with
      | Some offset =>
          parse l s = match lookupAnchor (Spec.nameSegment s) with
                      | Some a => (wrapInt sz (a + offset), None)
                      | None => (l, Some (ErrorfUnknownName (Spec.nameSegment s)))
                      end
      | None =>
          exists k, parse l s =
                      (l, Some (ErrorfLevelString s (NumError "Atoi" (String c r) k)))
      end
  end.
Proof.
  pose proof (segments_split s) as Hsplit.
  rewrite (parse_split sz mapUnicodeToUpper l s _ _ Hsplit).
  destruct (Spec.offsetSegment s) as [|c r] eqn:Eoff.
  - destruct (lookupAnchor (Spec.nameSegment s)) as [a|] eqn:Ea; [|reflexivity].
    now rewrite (anchor_plus_zero sz a (lookupAnchor_bounds _ _ a Ea)).
  - destruct Hsplit as (_ & _ & Hc).
    pose proof (Atoi_signed sz c r Hc) as HA.
    destruct (Spec.signedDecimal sz (String c r)) as [offset|].
    + now rewrite HA.
    + destruct HA as (n & k & ->). eauto.
Qed.

(** X1. Plain-text round trip: what [MarshalText] returns for a Level,
    [UnmarshalText] reads back as that Level; so does what [AppendText]
    appended to a buffer, read from where the buffer ended. *)
Theorem text_round_trip (l0 l : logs.Level) (b : string) :
  isInt sz l ->
  UnmarshalText l0 (fst (logs.MarshalText sz l)) = (l, None) /\
  UnmarshalText l0 (sliceFrom (fst (logs.AppendText sz l b)) (String.length b)) = (l, None).
Proof.
  intros Hl. unfold logs.UnmarshalText, logs.MarshalText, logs.AppendText. cbn [fst].
  rewrite sliceFrom_app. cbn [append].
  split; now apply String_round_trip.
Qed.

(** X2. [String] is injective: two Level values with the same encoding are
    the same value. *)
Theorem String_injective (l1 l2 : logs.Level) :
  isInt sz l1 -> isInt sz l2 -> Level_String l1 = Level_String l2 -> l1 = l2.
Proof using sz.
  intros H1 H2 E.
  pose proof (String_round_trip sz (fun s => s) 0 l1 H1) as P1.
  pose proof (String_round_trip sz (fun s => s) 0 l2 H2) as P2.
  rewrite E in P1. congruence.
Qed.

(** X3. Whatever text [parse] accepts, the value it stores is an [int] that
    [String] encodes to a text [parse] reads back as the same value:
    re-encoding normalises the text and keeps the value. *)
Theorem parse_then_String (l0 l1 v : logs.Level) (s : string) :
  parse l0 s = (v, None) ->
  isInt sz v /\ parse l1 (Level_String v) = (v, None).
Proof.
  intros E.
  assert (Hv : isInt sz v).
  { pose proof (parse_by_segments l0 s) as H.
    destruct (Spec.offsetSegment s) as [|c r].
    - rewrite E in H. destruct (lookupAnchor (Spec.nameSegment s)) as [a|] eqn:Ea.
      + injection H as ->. apply isInt_small.
        pose proof (lookupAnchor_bounds _ _ a Ea). change (2 ^ 31) with 2147483648. lia.
      + discriminate H.
    - destruct (Spec.signedDecimal sz (String c r)) as [offset|].
      + rewrite E in H. destruct (lookupAnchor (Spec.nameSegment s)) as [a|].
        * injection H as ->. apply wrapInt_isInt.
        * discriminate H.
      + destruct H as (k & H). rewrite E in H. discriminate H. }
  split; [exact Hv | now apply String_round_trip].
Qed.

(** X4. Every error [parse] returns is one of two: the unknown-name error,
    carrying exactly the name segment of the input, returned only when the
    offset segment was accepted; or the numeric parse error, carrying the
    input and the offset segment.  [UnmarshalJSON] adds the format error as
    the only third. *)
Theorem error_kinds (l : logs.Level) (s : string) (e : error) :
  (snd (parse l s) = Some e ->
     (e = ErrorfUnknownName (Spec.nameSegment s) /\
      lookupAnchor (Spec.nameSegment s) = None /\
      (Spec.offsetSegment s = "" \/
       Spec.signedDecimal sz (Spec.offsetSegment s) <> None)) \/
     (exists k, e = ErrorfLevelString s (NumError "Atoi" (Spec.offsetSegment s) k) /\
                Spec.signedDecimal sz (Spec.offsetSegment s) = None)) /\
  (snd (UnmarshalJSON l s) = Some e ->
     isFormatError e || isUnknownNameError e || isParseError e = true).
Proof.
  assert (HP : forall t, snd (parse l t) = Some e ->
     (e = ErrorfUnknownName (Spec.nameSegment t) /\
      lookupAnchor (Spec.nameSegment t) = None /\
      (Spec.offsetSegment t = "" \/
       Spec.signedDecimal sz (Spec.offsetSegment t) <> None)) \/
     (exists k, e = ErrorfLevelString t (NumError "Atoi" (Spec.offsetSegment t) k) /\
                Spec.signedDecimal sz (Spec.offsetSegment t) = None)).
  { intros t E. pose proof (parse_by_segments l t) as H.
    destruct (Spec.offsetSegment t) as [|c r].
    - rewrite H in E. destruct (lookupAnchor (Spec.nameSegment t)) as [a|]; [discriminate E|].
      injection E as <-. left. auto.
    - destruct (Spec.signedDecimal sz (String c r)) as [offset|] eqn:Eo.
      + rewrite H in E.
        destruct (lookupAnchor (Spec.nameSegment t)) as [a|]; [discriminate E|].
        injection E as <-. left. repeat split. right. congruence.
      + destruct H as (k & H). rewrite H in E. injection E as <-. right. eauto. }
  split; [apply HP|].
  unfold logs.UnmarshalJSON. intros E.
  destruct (Unquote_error s) as [Hok|Hbad].
  - destruct (strconv.Unquote s) as [t [err|]]; [discriminate Hok|].
    destruct (HP t E) as [(-> & _)|(k & -> & _)]; reflexivity.
  - rewrite Hbad in E. injection E as <-. reflexivity.
Qed.

(** The branch [String] takes for [l], the anchor of that branch and the
    values that reach it. *)
Lemma String_cases (l : logs.Level) :
  isInt sz l ->
  exists name a,
    In (name, a) Spec.anchors /\ isInt sz (l - a) /\
    Level_String l = logs.str name (l - a) /\
    ((a = -8 /\ l < -4) \/ (-8 < a < 8 /\ a <= l < a + 4) \/ (a = 8 /\ 8 <= l)).
Proof using sz.
  intros Hl. pose proof Hl as Hl'. unfold isInt, minInt, maxInt in Hl'.
  destruct (pow2_bits sz) as [_ [L _]]. change (2 ^ 31) with 2147483648 in L.
  assert (Hsub : forall a, -8 <= a <= 8 -> (l <= 8 \/ 0 <= a) ->
                           (-8 <= l \/ a <= 0) -> isInt sz (l - a)).
  { intros a Ha Hb Hc. unfold isInt, minInt, maxInt. lia. }
  unfold logs.String, logs.LevelDebug, logs.LevelInfo, logs.LevelWarn, logs.LevelError,
    logs.LevelTrace, slog.LevelDebug, slog.LevelInfo, slog.LevelWarn, slog.LevelError.
  destruct (Z.ltb_spec l (-4)); [exists "TRACE", (-8)|];
  [|destruct (Z.ltb_spec l 0); [exists "DEBUG", (-4)|]];
  [| |destruct (Z.ltb_spec l 4); [exists "INFO", 0|]];
  [| | |destruct (Z.ltb_spec l 8); [exists "WARN", 4|exists "ERROR", 8]];
  match goal with
  | |- _ /\ isInt sz (l - ?a) /\ _ =>
      assert (Hoff : isInt sz (l - a)) by (apply Hsub; lia)
  end;
  (split; [unfold Spec.anchors; cbn [In]; auto 10|]);
  (split; [exact Hoff|]);
  (split; [now rewrite (wrapInt_id _ _ Hoff) | lia]).
Qed.

Lemma containsByte_app (a b : string) (c : ascii) :
  strings.containsByte (a ++ b) c = strings.containsByte a c || strings.containsByte b c.
Proof.
  induction a as [|x a IH]; cbn [append strings.containsByte]; [reflexivity|].
  now rewrite IH, orb_assoc.
Qed.

Lemma digits_no_byte (d : string) (c : ascii) :
  Spec.isDigit c = false -> Spec.allBytes Spec.isDigit d = true ->
  strings.containsByte d c = false.
Proof.
  intros Hc. induction d as [|x d IH]; cbn [Spec.allBytes strings.containsByte];
    [reflexivity|].
  intros H. apply andb_true_iff in H as [Hx Hd]. rewrite (IH Hd), orb_false_r.
  destruct (Ascii.eqb_spec c x) as [->|]; congruence.
Qed.

(** What [String] writes for [l], as the anchor name followed, when [l] is
    not the anchor, by the sign of the offset and its decimal magnitude. *)
Lemma String_parts (l : logs.Level) :
  isInt sz l ->
  exists name a,
    In (name, a) Spec.anchors /\
    ((a = -8 /\ l < -4) \/ (-8 < a < 8 /\ a <= l < a + 4) \/ (a = 8 /\ 8 <= l)) /\
    ((l = a /\ Level_String l = name) \/
     (l <> a /\ exists d, Spec.decimalOf (Z.abs (l - a)) d /\ isInt sz (l - a) /\
        Level_String l = name ++ String (if l <? a then "-"%char else "+"%char) d)).
Proof using sz.
  intros Hl. destruct (String_cases l Hl) as (name & a & Hin & Hoff & E & Hr).
  exists name, a. split; [exact Hin|]. split; [exact Hr|].
  rewrite E. unfold logs.str.
  destruct (Z.eqb_spec (l - a) 0) as [E0|Hne]; [left; split; [lia | reflexivity]|].
  right. split; [lia|].
  destruct (fmtIntegerPlus_spec (l - a)) as (d & Hd & Ef).
  { pose proof (isInt_bounds sz _ Hoff). lia. }
  exists d. split; [exact Hd|]. split; [exact Hoff|].
  unfold fmt.Sprintf_s_plus_d. rewrite Ef.
  destruct (Z.ltb_spec (l - a) 0), (Z.ltb_spec l a); (reflexivity || lia).
Qed.

(** X5. [String] writes a bare anchor name exactly for the five anchor
    values, and then it is that anchor's name; for every other value the
    encoding carries a sign. *)
Theorem String_bare_name (l : logs.Level) :
  isInt sz l ->
  (In (Level_String l, l) Spec.anchors <-> In l [-8; -4; 0; 4; 8]) /\
  (Spec.allBytes (fun c => negb (Spec.isSign c)) (Level_String l) = true <->
   In l [-8; -4; 0; 4; 8]).
Proof using sz.
  intros Hl.
  destruct (String_parts l Hl) as (name & a & Hin & Hr & [[-> E]|(Hne & d & Hd & _ & E)]).
  - rewrite E.
    assert (Hv : In a [-8; -4; 0; 4; 8])
      by (clear -Hin; each_anchor Hin; cbn [In]; auto 10).
    assert (Hns : Spec.allBytes (fun c => negb (Spec.isSign c)) name = true)
      by (clear -Hin; each_anchor Hin; reflexivity).
    split; split; auto.
  - assert (Hnv : ~ In l [-8; -4; 0; 4; 8]).
    { cbn [In]. clear -Hin Hr Hne. each_anchor Hin; lia. }
    assert (Hsign : Spec.allBytes (fun c => negb (Spec.isSign c)) (Level_String l) = false).
    { rewrite E, allBytes_app. cbn [Spec.allBytes].
      replace (Spec.isSign (if l <? a then "-"%char else "+"%char)) with true
        by (destruct (l <? a); reflexivity).
      cbn [negb andb]. apply andb_false_r. }
    split; split; intros H; try contradiction; try congruence.
    exfalso. apply Hnv. clear -H. unfold Spec.anchors in H. cbn [In] in H.
    destruct H as [H|[H|[H|[H|[H|[]]]]]]; injection H as _ <-; cbn [In]; auto 10.
Qed.

(** X6. The encoding of [l] has a minus sign exactly when [l] is below
    TRACE's anchor, and a plus sign exactly when [l] is at or above it and
    is not an anchor value: offsets are counted upwards from the anchor in
    every band, and downwards only below TRACE. *)
Theorem String_sign (l : logs.Level) :
  isInt sz l ->
  strings.containsByte (Level_String l) "-" = (l <? logs.LevelTrace) /\
  (strings.containsByte (Level_String l) "+" = true <->
   logs.LevelTrace <= l /\ ~ In l [-8; -4; 0; 4; 8]).
Proof using sz.
  intros Hl. unfold logs.LevelTrace.
  destruct (String_parts l Hl) as (name & a & Hin & Hr & [[-> E]|(Hne & d & Hd & _ & E)]).
  - rewrite E.
    assert (Hc : strings.containsByte name "-" = false /\
                 strings.containsByte name "+" = false /\ In a [-8; -4; 0; 4; 8])
      by (clear -Hin; each_anchor Hin; cbn [In]; auto 10).
    destruct Hc as (-> & -> & Hv). split.
    + clear -Hin. each_anchor Hin; reflexivity.
    + split; [discriminate | intros [_ Hn]; contradiction].
  - rewrite E, !containsByte_app. cbn [strings.containsByte].
    destruct Hd as (Hdig & _ & _).
    rewrite (digits_no_byte d "-" eq_refl Hdig), (digits_no_byte d "+" eq_refl Hdig),
      !orb_false_r.
    assert (Hc : strings.containsByte name "-" = false /\
                 strings.containsByte name "+" = false)
      by (clear -Hin; each_anchor Hin; auto).
    destruct Hc as (-> & ->). cbn [orb].
    assert (Hlt : (l <? a) = (l <? -8)).
    { destruct (Z.ltb_spec l a) as [H1|H1], (Z.ltb_spec l (-8)) as [H2|H2];
        try reflexivity; exfalso; clear -Hin Hr Hne H1 H2; each_anchor Hin; lia. }
    rewrite Hlt. destruct (Z.ltb_spec l (-8)) as [Hlo|Hhi].
    + split; [reflexivity|]. split; [discriminate | lia].
    + split; [reflexivity|]. split; [intros _|reflexivity].
      split; [lia|]. cbn [In]. clear -Hin Hr Hne. each_anchor Hin; lia.
Qed.

Lemma digitsVal_lower (r : string) (n : Z) :
  Spec.allBytes Spec.isDigit r = true -> 0 <= n ->
  n * 10 ^ len r <= Spec.digitsVal r n.
Proof.
  revert n. induction r as [|c r IH]; intros n Hr Hn; cbn [Spec.digitsVal].
  - unfold len; cbn. lia.
  - cbn [Spec.allBytes] in Hr. apply andb_true_iff in Hr as [Hc Hr].
    apply isDigit_range in Hc. pose proof (len_nonneg r) as Hl.
    rewrite len_String, Z.pow_add_r by lia.
    specialize (IH (n * 10 + (byteVal c - 48)) Hr ltac:(lia)).
    assert (0 < 10 ^ len r) by (apply Z.pow_pos_nonneg; lia).
    nia.
Qed.

(** A decimal magnitude below [10^k] has at most [k] digits. *)
Lemma decimal_length (n : Z) (d : string) (k : Z) :
  Spec.decimalOf n d -> n < 10 ^ k -> 1 <= k -> 1 <= len d <= k.
Proof.
  intros (Hd & Hv & Hlead) Hn Hk. destruct d as [|c r]; [contradiction|].
  pose proof (len_nonneg r) as Hl. rewrite len_String. split; [lia|].
  cbn [Spec.allBytes] in Hd. apply andb_true_iff in Hd as [Hc Hr].
  apply isDigit_range in Hc.
  destruct (Z.eq_dec (byteVal c) 48) as [E|Hne].
  - assert (c = "0"%char) by (apply byteVal_inj; exact E).
    rewrite (Hlead H). unfold len; cbn. lia.
  - cbn [Spec.digitsVal] in Hv.
    pose proof (digitsVal_lower r (0 * 10 + (byteVal c - 48)) Hr ltac:(lia)) as Hlow.
    assert (Hp : 0 < 10 ^ len r) by (apply Z.pow_pos_nonneg; lia).
    assert (Hlt : 10 ^ len r < 10 ^ k) by nia.
    apply Z.pow_lt_mono_r_iff in Hlt; lia.
Qed.

(** X7. The encoding of a Level is 4 to 25 bytes long where [int] has 64
    bits, and 4 to 16 bytes where it has 32; the shortest is INFO and the
    longest is the encoding of the least [int]. *)
Theorem String_length (l : logs.Level) :
  isInt sz l ->
  4 <= len (Level_String l) <= (match sz with Int32 => 16 | Int64 => 25 end) /\
  len (Level_String logs.LevelInfo) = 4 /\
  len (Level_String (minInt sz)) = (match sz with Int32 => 16 | Int64 => 25 end).
Proof using sz.
  intros Hl. split; [|split; destruct sz; reflexivity].
  destruct (String_parts l Hl) as (name & a & Hin & Hr & [[-> E]|(Hne & d & Hd & Hoff & E)]).
  - rewrite E. clear -Hin. each_anchor Hin; destruct sz; cbn; lia.
  - rewrite E, len_app, len_String.
    assert (Hname : 4 <= len name <= 5) by (clear -Hin; each_anchor Hin; cbn; lia).
    assert (Hd' : 1 <= len d <= (match sz with Int32 => 10 | Int64 => 19 end)).
    { apply (decimal_length (Z.abs (l - a))); [exact Hd| |destruct sz; lia].
      clear -Hoff. unfold isInt, minInt, maxInt in Hoff.
      destruct sz; cbn [bitsOf] in Hoff;
        [change (2 ^ (32 - 1)) with 2147483648 in Hoff; change (10 ^ 10) with 10000000000
        |change (2 ^ (64 - 1)) with 9223372036854775808 in Hoff;
         change (10 ^ 19) with 10000000000000000000]; lia. }
    destruct sz; lia.
Qed.

(** *** Case *)

Lemma isSign_byteVal (c : ascii) :
  Spec.isSign c = (byteVal c =? 43) || (byteVal c =? 45).
Proof.
  unfold Spec.isSign.
  destruct (Ascii.eqb_spec c "+") as [->|H1]; [reflexivity|].
  destruct (Ascii.eqb_spec c "-") as [->|H2]; [reflexivity|].
  destruct (Z.eqb_spec (byteVal c) 43) as [E|_];
    [exfalso; apply H1, byteVal_inj; exact E|].
  destruct (Z.eqb_spec (byteVal c) 45) as [E|_];
    [exfalso; apply H2, byteVal_inj; exact E|].
  reflexivity.
Qed.

(** What upper-casing a byte does to its value. *)
Lemma upperByte_val (c : ascii) :
  (97 <= byteVal c <= 122 /\ byteVal (Spec.upperByte c) = byteVal c - 32) \/
  (~ 97 <= byteVal c <= 122 /\ Spec.upperByte c = c).
Proof.
  unfold Spec.upperByte.
  destruct (Z.leb_spec 97 (byteVal c)), (Z.leb_spec (byteVal c) 122); cbn [andb];
    try (right; split; [lia | reflexivity]).
  left. split; [lia|]. apply byteVal_byteOf. lia.
Qed.

Lemma upperByte_isSign (c : ascii) : Spec.isSign (Spec.upperByte c) = Spec.isSign c.
Proof.
  rewrite !isSign_byteVal. destruct (upperByte_val c) as [[Hr E]|[_ ->]]; [|reflexivity].
  rewrite E.
  destruct (Z.eqb_spec (byteVal c - 32) 43), (Z.eqb_spec (byteVal c - 32) 45),
    (Z.eqb_spec (byteVal c) 43), (Z.eqb_spec (byteVal c) 45); (reflexivity || lia).
Qed.

Lemma upperByte_isDigit (c : ascii) : Spec.isDigit (Spec.upperByte c) = Spec.isDigit c.
Proof.
  unfold Spec.isDigit. destruct (upperByte_val c) as [[Hr E]|[_ ->]]; [|reflexivity].
  rewrite E.
  destruct (Z.leb_spec 48 (byteVal c - 32)), (Z.leb_spec (byteVal c - 32) 57),
    (Z.leb_spec 48 (byteVal c)), (Z.leb_spec (byteVal c) 57); (reflexivity || lia).
Qed.

Lemma upperByte_idem (c : ascii) : Spec.upperByte (Spec.upperByte c) = Spec.upperByte c.
Proof.
  destruct (upperByte_val c) as [[Hr E]|[_ E]]; [|now rewrite !E].
  destruct (upperByte_val (Spec.upperByte c)) as [[Hr' _]|[_ E']]; [lia | exact E'].
Qed.

Lemma upperByte_fixes (c : ascii) :
  Spec.isDigit c || Spec.isSign c = true -> Spec.upperByte c = c.
Proof.
  rewrite isSign_byteVal. unfold Spec.isDigit. intros H.
  destruct (upperByte_val c) as [[Hr _]|[_ E]]; [|exact E].
  exfalso.
  destruct (Z.leb_spec 48 (byteVal c)), (Z.leb_spec (byteVal c) 57),
    (Z.eqb_spec (byteVal c) 43), (Z.eqb_spec (byteVal c) 45);
    cbn in H; (discriminate H || lia).
Qed.

Lemma upperASCII_String (c : ascii) (s : string) :
  strings.upperASCII (String c s) = String (Spec.upperByte c) (strings.upperASCII s).
Proof. reflexivity. Qed.

Lemma upperASCII_digits (d : string) :
  Spec.allBytes Spec.isDigit (strings.upperASCII d) = Spec.allBytes Spec.isDigit d /\
  (Spec.allBytes Spec.isDigit d = true -> strings.upperASCII d = d).
Proof.
  induction d as [|c d [IH1 IH2]]; [split; reflexivity|].
  rewrite upperASCII_String. cbn [Spec.allBytes].
  rewrite upperByte_isDigit, IH1. split; [reflexivity|].
  intros H. apply andb_true_iff in H as [Hc Hd].
  rewrite (IH2 Hd), upperByte_fixes; [reflexivity|]. now rewrite Hc.
Qed.

Lemma upperASCII_segments (s : string) :
  Spec.nameSegment (strings.upperASCII s) = strings.upperASCII (Spec.nameSegment s) /\
  Spec.offsetSegment (strings.upperASCII s) = strings.upperASCII (Spec.offsetSegment s).
Proof.
  induction s as [|c s [IH1 IH2]]; [split; reflexivity|].
  rewrite upperASCII_String. cbn [Spec.nameSegment Spec.offsetSegment].
  rewrite upperByte_isSign. destruct (Spec.isSign c).
  - split; reflexivity.
  - rewrite IH1, IH2. split; reflexivity.
Qed.

Lemma upperASCII_signedDecimal (s : string) :
  Spec.signedDecimal sz (strings.upperASCII s) = Spec.signedDecimal sz s.
Proof using Type.
  destruct s as [|c [|c1 d1]]; try reflexivity.
  rewrite upperASCII_String.
  destruct (upperASCII_digits (String c1 d1)) as [H1 H2].
  change (Spec.signedDecimal sz (String ?x (strings.upperASCII (String c1 d1)))) with
    (Spec.signedDecimal sz (String x (String (Spec.upperByte c1) (strings.upperASCII d1)))).
  unfold Spec.signedDecimal.
  change (String (Spec.upperByte c1) (strings.upperASCII d1))
    with (strings.upperASCII (String c1 d1)).
  rewrite upperByte_isSign, H1.
  destruct (Spec.isSign c) eqn:Hc; [|reflexivity].
  destruct (Spec.allBytes Spec.isDigit (String c1 d1)) eqn:Hd; [|reflexivity].
  cbn [andb]. rewrite (H2 eq_refl), upperByte_fixes; [reflexivity|].
  rewrite Hc. apply orb_true_r.
Qed.

Lemma isASCII_upperASCII (s : string) :
  strings.isASCII s = true -> strings.isASCII (strings.upperASCII s) = true.
Proof.
  induction s as [|c s IH]; [reflexivity|].
  rewrite upperASCII_String. cbn [strings.isASCII].
  intros H. apply andb_true_iff in H as [Hc Hs]. rewrite (IH Hs), andb_true_r.
  apply Z.ltb_lt in Hc. apply Z.ltb_lt.
  destruct (upperByte_val c) as [[Hr E]|[_ ->]]; lia.
Qed.

Lemma isASCII_nameSegment (s : string) :
  strings.isASCII s = true -> strings.isASCII (Spec.nameSegment s) = true.
Proof.
  induction s as [|c s IH]; [reflexivity|].
  cbn [strings.isASCII Spec.nameSegment]. intros H.
  apply andb_true_iff in H as [Hc Hs].
  destruct (Spec.isSign c); [reflexivity|]. cbn [strings.isASCII].
  now rewrite Hc, (IH Hs).
Qed.

Lemma equalFold_upperASCII (name anchor : string) :
  Spec.equalFold (strings.upperASCII name) anchor = Spec.equalFold name anchor.
Proof.
  revert anchor. induction name as [|x name IH]; intros [|y anchor]; try reflexivity.
  rewrite upperASCII_String. cbn [Spec.equalFold].
  now rewrite upperByte_idem, IH.
Qed.

Lemma lookupAnchor_upperASCII (name : string) :
  strings.isASCII name = true ->
  lookupAnchor (strings.upperASCII name) = lookupAnchor name.
Proof.
  intros H. unfold Spec.lookupAnchor, Spec.anchors, Spec.nameMatches. cbn [find fst].
  rewrite (isASCII_upperASCII name H), H. now rewrite !equalFold_upperASCII.
Qed.

(** Two inputs whose segments look up the same anchor and denote the same
    offset are accepted alike. *)
Lemma parse_success_congr (l : logs.Level) (s t : string) :
  lookupAnchor (Spec.nameSegment s) = lookupAnchor (Spec.nameSegment t) ->
  Spec.signedDecimal sz (Spec.offsetSegment s)
    = Spec.signedDecimal sz (Spec.offsetSegment t) ->
  (Spec.offsetSegment s = "" <-> Spec.offsetSegment t = "") ->
  forall v, parse l s = (v, None) -> parse l t = (v, None).
Proof.
  intros Hname Hoff Hempty v E.
  pose proof (parse_by_segments l s) as Hs. pose proof (parse_by_segments l t) as Ht.
  rewrite <- Hname in Ht.
  destruct (Spec.offsetSegment s) as [|c r] eqn:Es.
  - rewrite (proj1 Hempty eq_refl) in Ht.
    destruct (lookupAnchor (Spec.nameSegment s)) as [a|].
    + rewrite Ht, <- Hs. exact E.
    + rewrite Hs in E. discriminate E.
  - destruct (Spec.offsetSegment t) as [|c' r'] eqn:Et.
    + destruct Hempty as [_ H]. discriminate (H eq_refl).
    + rewrite <- Hoff in Ht.
      destruct (Spec.signedDecimal sz (String c r)) as [o|].
      * destruct (lookupAnchor (Spec.nameSegment s)) as [a|].
        -- rewrite Ht, <- Hs. exact E.
        -- rewrite Hs in E. discriminate E.
      * destruct Hs as (k & Hs). rewrite Hs in E. discriminate E.
Qed.

(** X8. [parse] ignores the case of ASCII letters: two ASCII inputs that are
    equal once their lower-case letters are put in upper case are accepted
    alike and give the same value. *)
Theorem parse_ignores_case (l : logs.Level) (s t : string) (v : logs.Level) :
  strings.isASCII s = true -> strings.isASCII t = true ->
  strings.upperASCII s = strings.upperASCII t ->
  (parse l s = (v, None) <-> parse l t = (v, None)).
Proof.
  assert (Hup : forall u, strings.isASCII u = true ->
            lookupAnchor (Spec.nameSegment (strings.upperASCII u))
              = lookupAnchor (Spec.nameSegment u) /\
            Spec.signedDecimal sz (Spec.offsetSegment (strings.upperASCII u))
              = Spec.signedDecimal sz (Spec.offsetSegment u) /\
            (Spec.offsetSegment (strings.upperASCII u) = "" <-> Spec.offsetSegment u = "")).
  { intros u Hu. destruct (upperASCII_segments u) as [-> ->].
    rewrite lookupAnchor_upperASCII by now apply isASCII_nameSegment.
    rewrite upperASCII_signedDecimal. repeat split.
    - destruct (Spec.offsetSegment u); [reflexivity | discriminate].
    - now intros ->. }
  intros Hs Ht E.
  destruct (Hup s Hs) as (Hs1 & Hs2 & Hs3). destruct (Hup t Ht) as (Ht1 & Ht2 & Ht3).
  rewrite E in Hs1, Hs2, Hs3.
  split; apply parse_success_congr; try congruence.
  - rewrite <- Hs3. exact Ht3.
  - rewrite <- Ht3. exact Hs3.
Qed.

End LevelMore.

(** *** The quoted-string envelope *)

Lemma length_app_one (s : string) (q : ascii) :
  String.length (s ++ String q "") = S (String.length s).
Proof. induction s as [|c s IH]; cbn; congruence. Qed.

Lemma app_one_assoc (s t : string) (q : ascii) :
  s ++ String q t = (s ++ String q "") ++ t.
Proof. now rewrite append_assoc. Qed.

(** [unquote] on a plain string between two double quotes or two back
    quotes, followed by anything: the string and what follows. *)
Lemma unquote_simple (q : ascii) (s t : string) :
  q = strconv.dquote \/ q = strconv.bquote ->
  Spec.allBytes Spec.isPlainByte s = true ->
  Spec.allBytes (fun c => negb (c =? q)%char) s = true ->
  strconv.unquote (String q (s ++ String q t)) = (s, t, None).
Proof.
  intros Hq Hs Hnq. set (rest := s ++ String q t).
  assert (Hrest : exists c r, rest = String c r)
    by (unfold rest; destruct s; cbn; eauto).
  assert (Hidx : strconv.index rest q = len s) by (apply index_first; assumption).
  assert (Hno : forall x, Spec.isPlainByte x = false -> (q =? x)%char = false ->
            strconv.contains (String q (s ++ String q "")) x = false).
  { intros x Hx Hqx. unfold strconv.contains. rewrite index_absent; [reflexivity|].
    cbn [Spec.allBytes]. rewrite allBytes_app.
    rewrite (plain_not_byte s x Hx Hs). cbn [Spec.allBytes]. now rewrite Hqx. }
  destruct Hrest as (c & r & Er).
  unfold strconv.unquote. rewrite Er. cbv beta iota. rewrite <- Er, Hidx.
  pose proof (len_nonneg s) as Hl.
  destruct (Z.ltb_spec (len s) 0) as [?|_]; [lia|].
  replace (Z.to_nat (len s + 2)) with (S (S (String.length s))) by (unfold len; lia).
  replace (S (S (String.length s)) - 1)%nat with (S (String.length s)) by lia.
  assert (Ebody : sliceFrom (sliceTo (String q rest) (S (String.length s))) 1 = s).
  { cbn [sliceTo sliceFrom]. rewrite sliceFrom_0. unfold rest. apply sliceTo_app. }
  assert (Ehead : sliceTo (String q rest) (S (S (String.length s)))
                  = String q (s ++ String q "")).
  { cbn [sliceTo]. f_equal. unfold rest. rewrite (app_one_assoc s t q), <- (length_app_one s q).
    apply sliceTo_app. }
  assert (Erem : sliceFrom (String q rest) (S (S (String.length s))) = t).
  { cbn [sliceFrom]. unfold rest. rewrite (app_one_assoc s t q), <- (length_app_one s q).
    apply sliceFrom_app. }
  rewrite Ebody, Ehead, Erem.
  destruct Hq as [-> | ->].
  - change ((strconv.dquote =? strconv.bquote)%char) with false.
    change ((strconv.dquote =? strconv.dquote)%char) with true.
    cbn [orb]. rewrite !Hno by reflexivity. cbn [negb andb].
    rewrite ValidString_ascii; [reflexivity|].
    apply (allBytes_impl Spec.isPlainByte); [|assumption].
    intros x Hx. apply isPlainByte_range in Hx. apply Z.ltb_lt. lia.
  - change ((strconv.bquote =? strconv.bquote)%char) with true.
    cbv beta iota. rewrite Hno by reflexivity. reflexivity.
Qed.

(** Three shapes [unquote] rejects at once. *)
Lemma unquote_rejects (data : string) :
  len data < 2 \/
  (exists c r, data = String c r /\
     c <> strconv.dquote /\ c <> strconv.squote /\ c <> strconv.bquote) \/
  (exists c r, data = String c r /\ strconv.index r c = -1) ->
  strconv.unquote data = ("", data, Some UnquoteSyntax).
Proof.
  intros H. destruct data as [|q [|c1 r1]]; try reflexivity.
  destruct H as [H|[(c & r & E & H1 & H2 & H3)|(c & r & E & H)]].
  - rewrite !len_String in H. pose proof (len_nonneg r1). lia.
  - injection E as <- <-. unfold strconv.unquote.
    destruct (strconv.index (String c1 r1) q <? 0); [reflexivity|].
    destruct (Ascii.eqb_spec q strconv.bquote); [contradiction|].
    destruct (Ascii.eqb_spec q strconv.dquote); [contradiction|].
    destruct (Ascii.eqb_spec q strconv.squote); [contradiction|].
    reflexivity.
  - injection E as <- <-. unfold strconv.unquote. rewrite H. reflexivity.
Qed.

Section JSONMore.
Variable sz : IntSize.
Variable mapUnicodeToUpper : string -> string.

Local Abbreviation parse := (logs.parse sz mapUnicodeToUpper).
Local Abbreviation UnmarshalJSON := (logs.UnmarshalJSON sz mapUnicodeToUpper).

(** X9. [UnmarshalJSON] rejects with the format error, the Level left as it
    was, every input of fewer than two bytes, every input that does not
    begin with a quote character (so no leading white space), every input
    whose opening quote does not come again, and every quoted plain string
    followed by at least one more byte (so no trailing white space or second
    value). *)
Theorem UnmarshalJSON_rejects (l : logs.Level) (data : string) :
  len data < 2 \/
  (exists c r, data = String c r /\
     c <> strconv.dquote /\ c <> strconv.squote /\ c <> strconv.bquote) \/
  (exists c r, data = String c r /\ strconv.index r c = -1) \/
  (exists s t, data = Spec.quoted s ++ t /\
     Spec.allBytes Spec.isPlainByte s = true /\ t <> "") ->
  UnmarshalJSON l data = (l, Some (ErrorfWrap UnquoteSyntax)).
Proof using Type.
  intros H. unfold logs.UnmarshalJSON, strconv.Unquote.
  assert (Hshape : (len data < 2 \/
     (exists c r, data = String c r /\
        c <> strconv.dquote /\ c <> strconv.squote /\ c <> strconv.bquote) \/
     (exists c r, data = String c r /\ strconv.index r c = -1)) \/
     (exists s t, data = Spec.quoted s ++ t /\
        Spec.allBytes Spec.isPlainByte s = true /\ t <> ""))
    by (destruct H as [H|[H|[H|H]]]; auto).
  destruct Hshape as [Hbad|(s & t & -> & Hs & Ht)].
  - rewrite (unquote_rejects data Hbad). destruct (0 <? len data); reflexivity.
  - unfold Spec.quoted. cbn [append]. rewrite <- app_one_assoc.
    rewrite (unquote_simple strconv.dquote s t (or_introl eq_refl) Hs
               (plain_not_byte s strconv.dquote eq_refl Hs)).
    destruct t as [|c t]; [contradiction|].
    rewrite len_String. pose proof (len_nonneg t).
    destruct (Z.ltb_spec 0 (len t + 1)); [reflexivity | lia].
Qed.

(** X10. [UnmarshalJSON] takes Go's string-literal syntax, not only JSON's:
    a plain string between back quotes is handed to [parse] just as the same
    string between double quotes is. *)
Theorem UnmarshalJSON_raw_string (l : logs.Level) (s : string) :
  Spec.allBytes Spec.isPlainByte s = true ->
  Spec.allBytes (fun c => negb (c =? strconv.bquote)%char) s = true ->
  UnmarshalJSON l (Spec.rawQuoted s) = parse l s /\
  UnmarshalJSON l (Spec.rawQuoted s) = UnmarshalJSON l (Spec.quoted s).
Proof using Type.
  intros Hs Hb. unfold logs.UnmarshalJSON, strconv.Unquote, Spec.rawQuoted, Spec.quoted.
  rewrite (unquote_simple strconv.bquote s "" (or_intror eq_refl) Hs Hb).
  rewrite (unquote_simple strconv.dquote s "" (or_introl eq_refl) Hs
             (plain_not_byte s strconv.dquote eq_refl Hs)).
  split; reflexivity.
Qed.

End JSONMore.

(** *** The edges of [parse] *)

Lemma allBytes_cons (p : ascii -> bool) (c : ascii) (r : string) :
  Spec.allBytes p (String c r) = p c && Spec.allBytes p r.
Proof. reflexivity. Qed.

Lemma equalFold_letters (a b : string) :
  Spec.equalFold a b = true -> Spec.allBytes Spec.isLetter b = true ->
  Spec.allBytes Spec.isLetter a = true.
Proof.
  revert b. induction a as [|x a IH]; intros [|y b]; cbn [Spec.equalFold Spec.allBytes];
    try discriminate; [reflexivity|].
  intros H Hb. apply andb_true_iff in H as [Hxy Hab].
  apply andb_true_iff in Hb as [Hy Hb]. apply Ascii.eqb_eq in Hxy.
  rewrite (IH b Hab Hb), andb_true_r.
  assert (Hu : 65 <= byteVal (Spec.upperByte y) <= 90).
  { unfold Spec.isLetter in Hy.
    destruct (upperByte_val y) as [[Hr E]|[Hr E]]; rewrite E; [lia|].
    destruct (Z.leb_spec 65 (byteVal y)), (Z.leb_spec (byteVal y) 90),
      (Z.leb_spec 97 (byteVal y)), (Z.leb_spec (byteVal y) 122);
      cbn in Hy; (discriminate Hy || lia). }
  rewrite <- Hxy in Hu. unfold Spec.isLetter.
  destruct (upperByte_val x) as [[Hr E]|[Hr E]]; rewrite E in Hu;
    destruct (Z.leb_spec 65 (byteVal x)), (Z.leb_spec (byteVal x) 90),
      (Z.leb_spec 97 (byteVal x)), (Z.leb_spec (byteVal x) 122);
    (reflexivity || lia).
Qed.

Section ParseMore.
Variable sz : IntSize.
Variable mapUnicodeToUpper : string -> string.

Local Abbreviation parse := (logs.parse sz mapUnicodeToUpper).
Local Abbreviation lookupAnchor := (Spec.lookupAnchor mapUnicodeToUpper).

Lemma lookupAnchor_letters (name : string) (a : Z) :
  strings.isASCII name = true -> lookupAnchor name = Some a ->
  Spec.allBytes Spec.isLetter name = true.
Proof.
  intros Hname. unfold Spec.lookupAnchor, Spec.anchors, Spec.nameMatches.
  rewrite Hname. cbn [find fst].
  repeat match goal with
         | |- context [Spec.equalFold name ?b] =>
             destruct (Spec.equalFold name b) eqn:?;
             [intros _; apply (equalFold_letters name b); [assumption | reflexivity]|]
         end.
  discriminate.
Qed.

Lemma signedDecimal_bytes (off : string) (o : Z) :
  Spec.signedDecimal sz off = Some o ->
  Spec.allBytes (fun c => Spec.isLetter c || Spec.isDigit c || Spec.isSign c) off = true.
Proof using Type.
  unfold Spec.signedDecimal. destruct off as [|c [|c1 d1]]; try discriminate.
  destruct (Spec.isSign c) eqn:Hc; [|discriminate]. cbn [andb].
  destruct (Spec.allBytes Spec.isDigit (String c1 d1)) eqn:Hd; [|discriminate].
  intros _. rewrite allBytes_cons, Hc, orb_true_r. cbn [andb].
  apply (allBytes_impl Spec.isDigit); [|exact Hd].
  intros x Hx. rewrite Hx, orb_true_r. reflexivity.
Qed.

(** An ASCII input with a byte that is no letter, digit or sign is rejected. *)
Lemma parse_other_bytes (l : logs.Level) (s : string) :
  strings.isASCII s = true ->
  Spec.allBytes (fun c => Spec.isLetter c || Spec.isDigit c || Spec.isSign c) s = false ->
  exists e, parse l s = (l, Some e) /\ isUnknownNameError e || isParseError e = true.
Proof.
  intros Hascii Hbad.
  pose proof (segments_split s) as (Es & _ & _).
  pose proof (isASCII_nameSegment s Hascii) as Hname.
  rewrite Es, allBytes_app in Hbad.
  assert (Hlook : Spec.allBytes (fun c => Spec.isLetter c || Spec.isDigit c || Spec.isSign c)
                    (Spec.offsetSegment s) = true ->
                  lookupAnchor (Spec.nameSegment s) = None).
  { intros Hoff. destruct (lookupAnchor (Spec.nameSegment s)) as [a|] eqn:Ea; [|reflexivity].
    apply (lookupAnchor_letters _ a Hname) in Ea.
    rewrite (allBytes_impl Spec.isLetter _ (Spec.nameSegment s)), Hoff in Hbad;
      [discriminate Hbad | | exact Ea].
    intros c Hc. now rewrite Hc. }
  pose proof (parse_by_segments sz mapUnicodeToUpper l s) as H.
  destruct (Spec.offsetSegment s) as [|c r].
  - rewrite (Hlook eq_refl) in H. rewrite H. eauto.
  - destruct (Spec.signedDecimal sz (String c r)) as [o|] eqn:Eo.
    + rewrite (Hlook (signedDecimal_bytes _ o Eo)) in H. rewrite H. eauto.
    + destruct H as (k & ->). eauto.
Qed.

(** X11. [parse] takes only letters, digits and the two signs: an ASCII
    input with any other byte (a space, a newline, a quote, a dot) is
    rejected with an error and the Level is left as it was; nothing is
    trimmed. *)
Theorem parse_rejects_other_bytes (l : logs.Level) (s : string) :
  strings.isASCII s = true ->
  Spec.allBytes (fun c => Spec.isLetter c || Spec.isDigit c || Spec.isSign c) s = false ->
  exists e, parse l s = (l, Some e) /\ isUnknownNameError e || isParseError e = true.
Proof. apply parse_other_bytes. Qed.

(** X12. [parse] adds the offset to the anchor in [int] arithmetic without
    a check: for an offset in range within 7 of the greatest [int], ERROR
    plus the offset is accepted and stored as a negative Level, and TRACE
    minus the offset is accepted and stored as a positive one. *)
Theorem parse_wraps_around (l : logs.Level) (o : Z) (d : string) :
  Spec.decimalOf o d -> maxInt sz - 7 < o <= maxInt sz ->
  parse l ("ERROR+" ++ d) = (8 + o - 2 ^ bitsOf sz, None) /\
  8 + o - 2 ^ bitsOf sz < 0 /\
  parse l ("TRACE-" ++ d) = (- 8 - o + 2 ^ bitsOf sz, None) /\
  0 < - 8 - o + 2 ^ bitsOf sz.
Proof.
  intros Hd Ho.
  destruct (pow2_bits sz) as [E2 [L _]]. change (2 ^ 31) with 2147483648 in L.
  unfold maxInt in Ho.
  assert (Hplus : Spec.signedDecimal sz (String "+" d) = Some o).
  { pose proof (signedDecimal_of_decimal sz o d) as H.
    replace (Z.abs o) with o in H by lia.
    destruct (Z.ltb_spec 0 o); [|lia].
    apply H; [assumption | lia | unfold isInt, minInt, maxInt; lia]. }
  assert (Hminus : Spec.signedDecimal sz (String "-" d) = Some (- o)).
  { pose proof (signedDecimal_of_decimal sz (- o) d) as H.
    replace (Z.abs (- o)) with o in H by lia.
    destruct (Z.ltb_spec 0 (- o)); [lia|].
    apply H; [assumption | lia | unfold isInt, minInt, maxInt; lia]. }
  pose proof (Atoi_signed sz "+" d eq_refl) as HA1. rewrite Hplus in HA1.
  pose proof (Atoi_signed sz "-" d eq_refl) as HA2. rewrite Hminus in HA2.
  rewrite (parse_split sz mapUnicodeToUpper l _ "ERROR" (String "+" d))
    by (repeat split; reflexivity).
  rewrite (parse_split sz mapUnicodeToUpper l _ "TRACE" (String "-" d))
    by (repeat split; reflexivity).
  rewrite HA1, HA2.
  change (lookupAnchor "ERROR") with (Some 8). change (lookupAnchor "TRACE") with (Some (-8)).
  cbv beta iota. unfold wrapInt. rewrite E2.
  rewrite <- (Z.mod_unique_pos (8 + o + 2 ^ (bitsOf sz - 1)) _ 1 (8 + o - 2 ^ (bitsOf sz - 1)))
    by lia.
  rewrite <- (Z.mod_unique_pos (-8 + - o + 2 ^ (bitsOf sz - 1)) _ (-1)
                (-8 - o + 3 * 2 ^ (bitsOf sz - 1))) by lia.
  repeat split; try lia; f_equal; lia.
Qed.

End ParseMore.

(** *** The two pairs of hooks together *)

Section HooksMore.
Variable sz : IntSize.
Variable mapUnicodeToUpper : string -> string.
Variable isPrintTables : Z -> bool.

Local Abbreviation Level_String := (logs.String sz).
Local Abbreviation parse := (logs.parse sz mapUnicodeToUpper).

(** The encoding starts with a letter. *)
Lemma String_first_byte (l : logs.Level) :
  isInt sz l ->
  exists c r, Level_String l = String c r /\ Spec.isLetter c = true.
Proof using Type.
  intros Hl.
  destruct (String_parts sz l Hl) as (name & a & Hin & _ & [[_ E]|(_ & d & _ & _ & E)]);
    rewrite E; clear -Hin; each_anchor Hin; cbn [append]; eauto.
Qed.

(** X13. The two pairs of hooks do not mix: what [MarshalJSON] returns is
    rejected by [UnmarshalText] (the quotes are no part of a name), and what
    [MarshalText] returns is rejected by [UnmarshalJSON] with the format
    error (it has no quotes); the Level is left as it was both times. *)
Theorem hooks_do_not_mix (l0 l : logs.Level) :
  isInt sz l ->
  (exists e, logs.UnmarshalText sz mapUnicodeToUpper l0
               (fst (logs.MarshalJSON sz isPrintTables l)) = (l0, Some e)) /\
  logs.UnmarshalJSON sz mapUnicodeToUpper l0 (fst (logs.MarshalText sz l))
    = (l0, Some (ErrorfWrap UnquoteSyntax)).
Proof.
  intros Hl.
  assert (Hplain : Spec.allBytes Spec.isPlainByte (Level_String l) = true).
  { apply (allBytes_impl Spec.isCanonicalByte); [apply isCanonicalByte_plain|].
    now apply (String_bytes sz (fun s => s)). }
  split.
  - unfold logs.UnmarshalText, logs.MarshalJSON. cbn [fst].
    rewrite (AppendQuote_plain isPrintTables _ Hplain).
    destruct (parse_other_bytes sz mapUnicodeToUpper l0 (Spec.quoted (Level_String l)))
      as (e & E & _); [| |eauto].
    + unfold Spec.quoted. cbn [strings.isASCII].
      change (byteVal strconv.dquote <? 128) with true. cbn [andb].
      assert (HA : forall a b, strings.isASCII a = true -> strings.isASCII b = true ->
                               strings.isASCII (a ++ b) = true).
      { intros a b Ha Hb. induction a as [|x a IH]; [exact Hb|].
        cbn [append strings.isASCII] in *. apply andb_true_iff in Ha as [Hx Ha].
        now rewrite Hx, (IH Ha). }
      apply HA; [|reflexivity].
      clear -Hplain. induction (Level_String l) as [|x s IH]; [reflexivity|].
      cbn [Spec.allBytes strings.isASCII] in *. apply andb_true_iff in Hplain as [Hx Hs].
      rewrite (IH Hs), andb_true_r. apply isPlainByte_range in Hx. apply Z.ltb_lt. lia.
    + unfold Spec.quoted. rewrite allBytes_cons. reflexivity.
  - unfold logs.UnmarshalJSON, logs.MarshalText, logs.AppendText, strconv.Unquote.
    cbn [fst append].
    destruct (String_first_byte l Hl) as (c & r & E & Hc). rewrite E.
    rewrite unquote_rejects.
    + destruct (0 <? len (String c r)); reflexivity.
    + right. left. exists c, r. split; [reflexivity|].
      repeat split; intros ->; discriminate Hc.
Qed.

(** X14. [parse] takes a value written against any anchor, not only the
    nearest below it: for every anchor and every offset in range whose sum
    is in range, the anchor's name followed by the signed decimal offset
    (the name alone for offset 0) is read as the sum, which [String] may
    spell against another anchor and [parse] reads as the same value. *)
Theorem parse_any_anchor (l0 : logs.Level) (na : string * Z) (v : Z) (out : string) :
  In na Spec.anchors -> isInt sz v -> isInt sz (snd na + v) ->
  Spec.canonical (fst na) v out ->
  parse l0 out = (snd na + v, None) /\
  parse l0 (Level_String (snd na + v)) = (snd na + v, None).
Proof.
  intros Hin Hv Hsum Hcan. split.
  - now apply parse_canonical.
  - now apply String_round_trip.
Qed.

End HooksMore.

(** ** The further properties at concrete inputs *)

Lemma text_round_trip_witness :
  isInt Int64 1 /\
  logs.UnmarshalText Int64 (fun s => s) 77 (fst (logs.MarshalText Int64 1)) = (1, None) /\
  logs.UnmarshalText Int64 (fun s => s) 77
    (sliceFrom (fst (logs.AppendText Int64 1 "abc")) (String.length "abc")) = (1, None).
Proof.
  assert (H : isInt Int64 1) by (unfold isInt, minInt, maxInt; cbn; lia).
  split; [exact H|].
  exact (text_round_trip Int64 (fun s => s) 77 1 "abc" H).
Defined.

Lemma String_injective_witness :
  isInt Int64 3 /\ logs.String Int64 3 = logs.String Int64 3 /\ 3 = 3.
Proof.
  assert (H : isInt Int64 3) by (unfold isInt, minInt, maxInt; cbn; lia).
  split; [exact H|]. split; [reflexivity|].
  exact (String_injective Int64 3 3 H H eq_refl).
Defined.

Lemma parse_then_String_witness :
  logs.parse Int64 (fun s => s) 77 "Error-8" = (0, None) /\
  isInt Int64 0 /\
  logs.parse Int64 (fun s => s) 5 (logs.String Int64 0) = (0, None).
Proof.
  assert (H : logs.parse Int64 (fun s => s) 77 "Error-8" = (0, None)) by reflexivity.
  split; [exact H|].
  exact (parse_then_String Int64 (fun s => s) 77 5 0 "Error-8" H).
Defined.

Lemma error_kinds_witness :
  snd (logs.UnmarshalJSON Int64 (fun s => s) 77 "INFO") = Some (ErrorfWrap UnquoteSyntax) /\
  isFormatError (ErrorfWrap UnquoteSyntax)
  || isUnknownNameError (ErrorfWrap UnquoteSyntax)
  || isParseError (ErrorfWrap UnquoteSyntax) = true.
Proof.
  assert (H : snd (logs.UnmarshalJSON Int64 (fun s => s) 77 "INFO")
              = Some (ErrorfWrap UnquoteSyntax)) by reflexivity.
  split; [exact H|].
  exact (proj2 (error_kinds Int64 (fun s => s) 77 "INFO" (ErrorfWrap UnquoteSyntax)) H).
Defined.

Lemma String_bare_name_witness :
  isInt Int64 4 /\
  (In (logs.String Int64 4, 4) Spec.anchors <-> In 4 [-8; -4; 0; 4; 8]) /\
  (Spec.allBytes (fun c => negb (Spec.isSign c)) (logs.String Int64 4) = true <->
   In 4 [-8; -4; 0; 4; 8]).
Proof.
  assert (H : isInt Int64 4) by (unfold isInt, minInt, maxInt; cbn; lia).
  split; [exact H|].
  exact (String_bare_name Int64 4 H).
Defined.

Lemma String_sign_witness :
  isInt Int64 (-10) /\
  strings.containsByte (logs.String Int64 (-10)) "-" = (-10 <? logs.LevelTrace) /\
  (strings.containsByte (logs.String Int64 (-10)) "+" = true <->
   logs.LevelTrace <= -10 /\ ~ In (-10) [-8; -4; 0; 4; 8]).
Proof.
  assert (H : isInt Int64 (-10)) by (unfold isInt, minInt, maxInt; cbn; lia).
  split; [exact H|].
  exact (String_sign Int64 (-10) H).
Defined.

Lemma String_length_witness :
  isInt Int64 (-10) /\ 4 <= len (logs.String Int64 (-10)) <= 25.
Proof.
  assert (H : isInt Int64 (-10)) by (unfold isInt, minInt, maxInt; cbn; lia).
  split; [exact H|].
  exact (proj1 (String_length Int64 (-10) H)).
Defined.

Lemma parse_ignores_case_witness :
  strings.upperASCII "info+3" = strings.upperASCII "InFo+3" /\
  (logs.parse Int64 (fun s => s) 77 "info+3" = (3, None) <->
   logs.parse Int64 (fun s => s) 77 "InFo+3" = (3, None)).
Proof.
  assert (H : strings.upperASCII "info+3" = strings.upperASCII "InFo+3") by reflexivity.
  split; [exact H|].
  exact (parse_ignores_case Int64 (fun s => s) 77 "info+3" "InFo+3" 3 eq_refl eq_refl H).
Defined.

Lemma UnmarshalJSON_rejects_witness :
  Spec.allBytes Spec.isPlainByte "INFO" = true /\
  logs.UnmarshalJSON Int64 (fun s => s) 77 (Spec.quoted "INFO" ++ " ")
    = (77, Some (ErrorfWrap UnquoteSyntax)).
Proof.
  assert (H : Spec.allBytes Spec.isPlainByte "INFO" = true) by reflexivity.
  split; [exact H|].
  apply (UnmarshalJSON_rejects Int64 (fun s => s) 77).
  right; right; right. exists "INFO", " ".
  split; [reflexivity|]. split; [exact H | discriminate].
Defined.

Lemma UnmarshalJSON_raw_string_witness :
  Spec.allBytes Spec.isPlainByte "warn" = true /\
  logs.UnmarshalJSON Int64 (fun s => s) 77 (Spec.rawQuoted "warn")
    = logs.parse Int64 (fun s => s) 77 "warn".
Proof.
  assert (H : Spec.allBytes Spec.isPlainByte "warn" = true) by reflexivity.
  split; [exact H|].
  exact (proj1 (UnmarshalJSON_raw_string Int64 (fun s => s) 77 "warn" H eq_refl)).
Defined.

Lemma parse_rejects_other_bytes_witness :
  strings.isASCII " INFO" = true /\
  exists e, logs.parse Int64 (fun s => s) 77 " INFO" = (77, Some e) /\
            isUnknownNameError e || isParseError e = true.
Proof.
  assert (H : strings.isASCII " INFO" = true) by reflexivity.
  split; [exact H|].
  exact (parse_rejects_other_bytes Int64 (fun s => s) 77 " INFO" H eq_refl).
Defined.

Lemma parse_wraps_around_witness :
  Spec.decimalOf 9223372036854775807 "9223372036854775807" /\
  logs.parse Int64 (fun s => s) 77 "ERROR+9223372036854775807"
    = (-9223372036854775801, None).
Proof.
  assert (H : Spec.decimalOf 9223372036854775807 "9223372036854775807")
    by (split; [reflexivity | split; [reflexivity | discriminate]]).
  split; [exact H|].
  refine (proj1 (parse_wraps_around Int64 (fun s => s) 77
                   9223372036854775807 "9223372036854775807" H _)).
  unfold maxInt; cbn; lia.
Defined.

Lemma hooks_do_not_mix_witness :
  isInt Int64 1 /\
  logs.UnmarshalJSON Int64 (fun s => s) 77 (fst (logs.MarshalText Int64 1))
    = (77, Some (ErrorfWrap UnquoteSyntax)).
Proof.
  assert (H : isInt Int64 1) by (unfold isInt, minInt, maxInt; cbn; lia).
  split; [exact H|].
  exact (proj2 (hooks_do_not_mix Int64 (fun s => s) (fun _ => false) 77 1 H)).
Defined.

Lemma parse_any_anchor_witness :
  Spec.canonical "ERROR" (-8) "ERROR-8" /\
  logs.parse Int64 (fun s => s) 77 "ERROR-8" = (0, None).
Proof.
  assert (H : Spec.canonical "ERROR" (-8) "ERROR-8").
  { exists "8". split; [|reflexivity].
    split; [reflexivity | split; [reflexivity | discriminate]]. }
  split; [exact H|].
  refine (proj1 (parse_any_anchor Int64 (fun s => s) 77 ("ERROR", 8) (-8) "ERROR-8"
                   _ _ _ H)).
  - unfold Spec.anchors; cbn [In]; auto 10.
  - unfold isInt, minInt, maxInt; cbn; lia.
  - unfold isInt, minInt, maxInt; cbn; lia.
Defined.
